(** * dedup / sortfile: a shallow embedding and its verified properties

    The repository holds two command-line tools:
    - [dedup.py]    merges several source directories into one output
                    directory, keyed by base file name, comparing SHA-256
                    digests when a name is seen again;
    - [sortfile.py] copies the files of one source tree into directories
                    named after each file's modification date.

    Both are single sequential passes over a file system.  The file system,
    [pathlib] and [shutil] are the environment: they are modelled in
    [Module FS] after the documented behaviour of the Python standard
    library.  [Module Dedup] and [Module Sortfile] embed the two [main]
    functions statement by statement. *)

From Stdlib Require Import ZArith Strings.Byte Ascii String List Lia DecimalString.
From Stdlib Require Import DecimalPos DecimalZ.
From stdpp Require Import base option list gmap strings.

Local Open Scope string_scope.
Local Open Scope Z_scope.
Local Open Scope list_scope.

(* ===================================================================== *)
(** * The environment: paths, the file system, pathlib and shutil        *)
(* ===================================================================== *)

Module FS.

(** A path is its list of components below the root, so that
    [Path("/a/b/x.txt")] is [["a"; "b"; "x.txt"]]. *)
Definition path := list string.

(** [Path.name]: the final component ([""] for the root). *)
Definition name (p : path) : string := List.last p "".

(** [Path.parent]: the root is its own parent. *)
Definition parent (p : path) : path := removelast p.

(** [p / n] for a single component [n]. *)
Definition joinpath (p : path) (n : string) : path := p ++ [n].

Definition bytes := list byte.

#[global] Instance byte_eq_decision : EqDecision byte := Byte.byte_eq_dec.

(** A file-system entry.  A regular file has its contents, its
    modification time (POSIX seconds; the sub-second part that [st_mtime]
    carries as a float is not modelled) and whether the process may read
    it.  Symbolic links and write permissions are not modelled. *)
Inductive node :=
| Dir
| File (data : bytes) (mtime : Z) (readable : bool).

#[global] Instance node_eq_decision : EqDecision node.
Proof. solve_decision. Defined.

Abbreviation filesystem := (gmap path node).

(** The exceptions the two programs can raise.  All but
    [UnboundLocalError] are subclasses of [OSError], of which [IOError] is
    an alias in Python 3 ([shutil.SameFileError] derives from
    [shutil.Error], itself an [OSError]). *)
Inductive exn :=
| FileNotFoundError
| FileExistsError
| NotADirectoryError
| IsADirectoryError
| PermissionError
| SameFileError
| UnboundLocalError.

#[global] Instance exn_eq_decision : EqDecision exn.
Proof. solve_decision. Defined.

Definition is_IOError (e : exn) : bool :=
  match e with
  | UnboundLocalError => false
  | _ => true
  end.

Inductive result (A : Type) :=
| Ok (a : A)
| Raise (e : exn).
Arguments Ok {A} a.
Arguments Raise {A} e.

#[global] Instance result_eq_decision `{EqDecision A} : EqDecision (result A).
Proof. solve_decision. Defined.

(** Exceptions propagate: [x ← r; k] runs [k] only when [r] returned. *)
#[global] Instance result_ret : MRet result := @Ok.
#[global] Instance result_bind : MBind result := λ A B k r,
  match r with
  | Ok a => k a
  | Raise e => Raise e
  end.

(** [Path.is_file()] and [Path.is_dir()]: false for a missing entry. *)
Definition is_file (fs : filesystem) (p : path) : bool :=
  match fs !! p with
  | Some (File _ _ _) => true
  | _ => false
  end.

Definition is_dir (fs : filesystem) (p : path) : bool :=
  match fs !! p with
  | Some Dir => true
  | _ => false
  end.

(** [open(p, "rb")] followed by [read()]: the whole contents, or the
    [OSError] that [open] raises. *)
Definition read_bytes (fs : filesystem) (p : path) : result bytes :=
  match fs !! p with
  | Some (File data _ true) => Ok data
  | Some (File _ _ false) => Raise PermissionError
  | Some Dir => Raise IsADirectoryError
  | None => Raise FileNotFoundError
  end.

(** [p.stat().st_mtime].  Directories carry no time in the model; the
    programs ask for the time of regular files only. *)
Definition st_mtime (fs : filesystem) (p : path) : result Z :=
  match fs !! p with
  | Some (File _ t _) => Ok t
  | Some Dir => Ok 0
  | None => Raise FileNotFoundError
  end.

(** [os.mkdir(p)]: [EEXIST] when the entry exists, [ENOENT] when the parent
    is missing, [ENOTDIR] when the parent is a regular file. *)
Definition os_mkdir (fs : filesystem) (p : path) : result filesystem :=
  match fs !! p with
  | Some _ => Raise FileExistsError
  | None =>
      match fs !! parent p with
      | Some Dir => Ok (<[p := Dir]> fs)
      | Some (File _ _ _) => Raise NotADirectoryError
      | None => Raise FileNotFoundError
      end
  end.

(** [Path.mkdir(parents=False, exist_ok=True)]: a missing parent is
    re-raised; any other [OSError] is swallowed when [p] is a directory. *)
Definition mkdir (fs : filesystem) (p : path) : result filesystem :=
  match os_mkdir fs p with
  | Ok fs' => Ok fs'
  | Raise FileNotFoundError => Raise FileNotFoundError
  | Raise e => if is_dir fs p then Ok fs else Raise e
  end.

(** [Path.mkdir(parents=True, exist_ok=True)]: on a missing parent, make
    the parent the same way and retry without [parents].  The recursion is
    on the parent, so it is bounded by the number of components. *)
Fixpoint makedirs_aux (n : nat) (fs : filesystem) (p : path)
  : result filesystem :=
  match os_mkdir fs p with
  | Ok fs' => Ok fs'
  | Raise FileNotFoundError =>
      match n with
      | O => Raise FileNotFoundError
      | S n' =>
          if decide (parent p = p) then Raise FileNotFoundError
          else fs1 ← makedirs_aux n' fs (parent p); mkdir fs1 p
      end
  | Raise e => if is_dir fs p then Ok fs else Raise e
  end.

Definition makedirs (fs : filesystem) (p : path) : result filesystem :=
  makedirs_aux (length p) fs p.

(** [shutil.copy2(src, dst)]: a directory destination stands for the entry
    of the same base name inside it; copying a file onto itself raises
    [SameFileError]; the source is opened for reading, the destination for
    writing (created or truncated), and [copystat] carries the
    modification time and the mode bits over. *)
Definition copy2 (fs : filesystem) (src dst : path) : result filesystem :=
  let dst := if is_dir fs dst then joinpath dst (name src) else dst in
  if bool_decide (src = dst) && bool_decide (is_Some (fs !! src))
  then Raise SameFileError
  else
    match fs !! src with
    | None => Raise FileNotFoundError
    | Some Dir => Raise IsADirectoryError
    | Some (File _ _ false) => Raise PermissionError
    | Some (File data t true) =>
        match fs !! dst with
        | Some Dir => Raise IsADirectoryError
        | _ =>
            match fs !! parent dst with
            | Some Dir => Ok (<[dst := File data t true]> fs)
            | Some (File _ _ _) => Raise NotADirectoryError
            | None => Raise FileNotFoundError
            end
        end
    end.

(** [fnmatch] of a name against ["*" + dot_ext] for a literal [dot_ext]
    (an extension with glob metacharacters is not modelled). *)
Definition ends_with (s suf : string) : bool :=
  let n := String.length s in
  let k := String.length suf in
  (k <=? n)%nat && String.eqb (substring (n - k) k s) suf.

(** [root.glob("**/*" + dot_ext)]: every entry strictly below [root] whose
    name matches, and nothing at all when [root] is not a directory
    (pathlib's selector returns an empty iterator in that case; it raises
    nothing).  On a well-formed tree ([wf] below) every such entry is
    reached through directories.  The order is the file system's own, here
    the order of the map's listing.  The generator is consumed while the
    file system is read only (dedup) or is taken as a snapshot
    (sortfile). *)
Definition glob (fs : filesystem) (root : path) (dot_ext : string)
  : list path :=
  if is_dir fs root then
    filter (fun p => root `prefix_of` p ∧ p ≠ root
                     ∧ ends_with (name p) dot_ext = true)
           (map fst (map_to_list fs))
  else [].

(** The bytes of the regular file at [p], whatever its permissions. *)
Definition contents (fs : filesystem) (p : path) : option bytes :=
  match fs !! p with
  | Some (File data _ _) => Some data
  | _ => None
  end.

Definition readable (fs : filesystem) (p : path) : bool :=
  match fs !! p with
  | Some (File _ _ r) => r
  | _ => false
  end.

(** Every entry but the root lies in a directory, as on any real file
    system. *)
Definition wf (fs : filesystem) : Prop :=
  ∀ p x, fs !! p = Some x → p ≠ [] → fs !! parent p = Some Dir.


Definition emptyb (fs : filesystem) (out : path) : bool :=
  forallb (λ kv, bool_decide (kv.1 = []) ||
                 negb (bool_decide (parent kv.1 = out)))
          (map_to_list fs).

(** "Nothing lies below [out]", at any depth, as a check on a listing. *)
Definition nothing_belowb (fs : filesystem) (out : path) : bool :=
  forallb (λ kv, negb (bool_decide (out `prefix_of` kv.1)) ||
                 bool_decide (kv.1 = out))
          (map_to_list fs).

End FS.

(* ===================================================================== *)
(** * dedup.py                                                            *)
(* ===================================================================== *)

Module Dedup.
Import FS.
Local Open Scope nat_scope.

(** The per-file dictionary [metadata]: the keys ["file"] and ["filename"]
    are always present, ["md5"] only once a digest has been stored. *)
Record metadata := {
  file : path;
  filename : string;
  md5 : option bytes;
}.

#[global] Instance metadata_eq_decision : EqDecision metadata.
Proof. solve_decision. Defined.

(** [files] is a Python dict: keys are unique and iteration follows
    insertion order, which an association list keeps. *)
Definition dict := list (string * metadata).

Fixpoint dict_get (d : dict) (k : string) : option metadata :=
  match d with
  | [] => None
  | (k', v) :: d' => if decide (k' = k) then Some v else dict_get d' k
  end.

(** [d[k] = v]: in place for a present key, appended for a new one. *)
Fixpoint dict_set (d : dict) (k : string) (v : metadata) : dict :=
  match d with
  | [] => [(k, v)]
  | (k', v') :: d' =>
      if decide (k' = k) then (k', v) :: d'
      else (k', v') :: dict_set d' k v
  end.

(** What a run does besides writing files: every digest computation, with
    the place of the call (the new file, lines 83-85, or the file of the
    index record, lines 87-89), and the lines printed by the two loops and
    the summary. *)
Inductive hash_site := NewFile | IndexRecord.

Inductive event :=
| Sha256 (site : hash_site) (p : path)
| Warning (kept rejected : path)
| InfoSkipping (p kept : path)
| InfoCopied (src dst : path) (i n : nat)
| Summary (unique directories skipped mismatches : nat).

#[global] Instance hash_site_eq_decision : EqDecision hash_site.
Proof. solve_decision. Defined.
#[global] Instance event_eq_decision : EqDecision event.
Proof. solve_decision. Defined.

(** The local variables of [main] and the output so far.  A conflict is
    the pair [(files[fname], metadata)]; its first component is the record
    of the index itself, whose ["md5"] entry later collisions assign again,
    always to the digest of the same unchanged file, so that the pair is
    kept here by value. *)
Record state := {
  skip_count : nat;
  conflict_count : nat;
  conflicts : list (metadata * metadata);
  files : dict;
  log : list event;
}.

#[global] Instance state_eq_decision : EqDecision state.
Proof. solve_decision. Defined.

Definition initial : state :=
  {| skip_count := 0; conflict_count := 0; conflicts := [];
     files := []; log := [] |}.

Record args := {
  sources : list path;
  out : path;
  ext : option string;
  verbose : bool;
}.

(** [info]: printed only in verbose mode. *)
Definition info (VERBOSE : bool) (e : event) (lg : list event)
  : list event :=
  if VERBOSE then lg ++ [e] else lg.

(** [file_as_bytes(open(p, "rb"))]. *)
Definition file_as_bytes (fs : filesystem) (p : path) : result bytes :=
  read_bytes fs p.

(** [f".{args.ext}" if args.ext else ""]: an empty extension is falsy. *)
Definition dot_ext (a : args) : string :=
  match ext a with
  | Some e => if decide (e = "") then "" else "." +:+ e
  | None => ""
  end.

Section WithHash.

(** [hashlib.sha256(_).digest()]; nothing below depends on which function
    it is. *)
Variable sha256 : bytes → bytes.

(** The body of the inner loop, lines 64-111, for one entry [p]. *)
Definition process (VERBOSE : bool) (fs : filesystem) (st : state)
    (p : path) : result state :=
  if negb (is_file fs p) then Ok st
  else
    let fname := name p in
    match dict_get (files st) fname with
    | None =>
        let metadata := {| file := p; filename := fname; md5 := None |} in
        Ok {| skip_count := skip_count st;
              conflict_count := conflict_count st;
              conflicts := conflicts st;
              files := dict_set (files st) fname metadata;
              log := log st |}
    | Some kept =>
        data ← file_as_bytes fs p;
        let metadata :=
          {| file := p; filename := fname; md5 := Some (sha256 data) |} in
        let lg := log st ++ [Sha256 NewFile p] in
        data' ← file_as_bytes fs (file kept);
        let kept' :=
          {| file := file kept; filename := filename kept;
             md5 := Some (sha256 data') |} in
        let files' := dict_set (files st) fname kept' in
        let lg := lg ++ [Sha256 IndexRecord (file kept)] in
        if decide (md5 kept' ≠ md5 metadata) then
          Ok {| skip_count := S (skip_count st);
                conflict_count := S (conflict_count st);
                conflicts := conflicts st ++ [(kept', metadata)];
                files := files';
                log := lg ++ [Warning (file kept') (file metadata)] |}
        else
          Ok {| skip_count := S (skip_count st);
                conflict_count := conflict_count st;
                conflicts := conflicts st;
                files := files';
                log := info VERBOSE (InfoSkipping p (file kept')) lg |}
    end.

(** [for path in flist: ...] *)
Fixpoint scan (VERBOSE : bool) (fs : filesystem) (st : state)
    (flist : list path) : result state :=
  match flist with
  | [] => Ok st
  | p :: rest => st' ← process VERBOSE fs st p; scan VERBOSE fs st' rest
  end.

(** [for src in srcpaths: flist = src.glob(...); ...], lines 57-111. *)
Fixpoint build (VERBOSE : bool) (fs : filesystem) (ext : string)
    (st : state) (srcpaths : list path) : result state :=
  match srcpaths with
  | [] => Ok st
  | src :: rest =>
      st' ← scan VERBOSE fs st (glob fs src ext);
      build VERBOSE fs ext st' rest
  end.

(** [for _, meta in files.items(): ...], lines 118-128.  An exception
    leaves the copies made so far in place. *)
Fixpoint copy_files (VERBOSE : bool) (out : path) (n : nat)
    (fs : filesystem) (lg : list event) (i : nat) (items : dict)
  : filesystem * result (list event) :=
  match items with
  | [] => (fs, Ok lg)
  | (_, meta) :: rest =>
      let i := S i in
      let srcfile := file meta in
      let dstfile := joinpath out (name srcfile) in
      match copy2 fs srcfile dstfile with
      | Raise e => (fs, Raise e)
      | Ok fs' =>
          copy_files VERBOSE out n fs'
            (info VERBOSE (InfoCopied srcfile dstfile i n) lg) i rest
      end
  end.

(** [main(args)], lines 50-144. *)
Definition main (a : args) (fs : filesystem) : filesystem * result state :=
  let srcpaths := sources a in
  match build (verbose a) fs (dot_ext a) initial srcpaths with
  | Raise e => (fs, Raise e)
  | Ok st =>
      match mkdir fs (out a) with
      | Raise e => (fs, Raise e)
      | Ok fs1 =>
          match copy_files (verbose a) (out a) (length (files st))
                  fs1 (log st) 0 (files st) with
          | (fs2, Raise e) => (fs2, Raise e)
          | (fs2, Ok lg) =>
              (fs2,
               Ok {| skip_count := skip_count st;
                     conflict_count := conflict_count st;
                     conflicts := conflicts st;
                     files := files st;
                     log := lg ++ [Summary (length (files st))
                                     (length srcpaths)
                                     (skip_count st)
                                     (conflict_count st)] |})
          end
      end
  end.

End WithHash.

(** ** The specification vocabulary *)

(** The first path of a list with base name [n]. *)
Fixpoint first_named (l : list path) (n : string) : option path :=
  match l with
  | [] => None
  | p :: l' => if decide (name p = n) then Some p else first_named l' n
  end.

(** How many paths of a list have base name [n]. *)
Fixpoint count_named (l : list path) (n : string) : nat :=
  match l with
  | [] => O
  | p :: l' =>
      if decide (name p = n) then S (count_named l' n) else count_named l' n
  end.

(** Every entry the globs yield, in source-list order and, within a
    source, in enumeration order. *)
Definition enumerated (fs : filesystem) (a : args) : list path :=
  concat (map (λ src, glob fs src (dot_ext a)) (sources a)).

(** The regular files among them: what line 65 lets through. *)
Definition candidates (fs : filesystem) (a : args) : list path :=
  List.filter (is_file fs) (enumerated fs a).

(** How often the log records a digest computed at [site] for [p]. *)
Definition hash_count (site : hash_site) (p : path) (lg : list event)
  : nat :=
  length (List.filter (λ e, bool_decide (e = Sha256 site p)) lg).

(** How many digest computations the log records in all. *)
Definition is_hash (e : event) : bool :=
  match e with
  | Sha256 _ _ => true
  | _ => false
  end.

Definition hash_total (lg : list event) : nat :=
  length (List.filter is_hash lg).

(** The index seen as the spec sees it: which file is kept per name. *)
Definition chosen (d : dict) : list (string * path) :=
  map (λ kv, (kv.1, file kv.2)) d.

(** First-seen-wins, written as a function of the enumeration: a path is
    noted when no earlier path had its base name. *)
Definition note (idx : list (string * path)) (p : path)
  : list (string * path) :=
  if bool_decide (name p ∈ map fst idx) then idx else idx ++ [(name p, p)].

Definition first_seen (l : list path) : list (string * path) :=
  fold_left note l [].

(** A fresh output directory: it is an empty directory, or it does not
    exist and can be made; either way nothing lies in it. *)
Definition fresh (fs : filesystem) (out : path) : Prop :=
  (fs !! out = Some Dir ∨ (fs !! out = None ∧ fs !! parent out = Some Dir))
  ∧ ∀ n, fs !! joinpath out n = None.

(** The same arguments with another list of sources. *)
Definition with_sources (a : args) (l : list path) : args :=
  {| sources := l; out := out a; ext := ext a; verbose := verbose a |}.

(** Two outcomes that differ at most in what was printed. *)
Definition same_outcome (r1 r2 : result state) : Prop :=
  match r1, r2 with
  | Ok s1, Ok s2 =>
      files s1 = files s2 ∧ conflicts s1 = conflicts s2
      ∧ skip_count s1 = skip_count s2
      ∧ conflict_count s1 = conflict_count s2
  | Raise e1, Raise e2 => e1 = e2
  | _, _ => False
  end.

(** What the state records once the regular files [l] have been
    processed, in that order, from the initial state. *)
Record scanned (l : list path) (st : state) : Prop := {
  scanned_keys : NoDup (map fst (files st));
  scanned_first : ∀ n, file <$> dict_get (files st) n = first_named l n;
  scanned_filename : ∀ n m, dict_get (files st) n = Some m → filename m = n;
  scanned_skip : skip_count st + length (files st) = length l;
  scanned_conflicts : conflict_count st = length (conflicts st);
  scanned_hashes : ∀ q,
    hash_count IndexRecord q (log st) =
    if decide (first_named l (name q) = Some q)
    then pred (count_named l (name q)) else 0;
  scanned_hash_total : hash_total (log st) = 2 * skip_count st;
  scanned_chosen : chosen (files st) = first_seen l;
}.

(** ** Vocabulary for the further properties *)

(** The warnings of a log, and the warning line 95 prints for a conflict
    record. *)
Definition is_warning (e : event) : bool :=
  match e with
  | Warning _ _ => true
  | _ => false
  end.

Definition warnings (lg : list event) : list event :=
  List.filter is_warning lg.

Definition warning_of (c : metadata * metadata) : event :=
  Warning (file c.1) (file c.2).

(** The lines that only [info] prints. *)
Definition is_info (e : event) : bool :=
  match e with
  | InfoSkipping _ _ | InfoCopied _ _ _ _ => true
  | _ => false
  end.

(** The same arguments with another verbosity. *)
Definition with_verbose (a : args) (v : bool) : args :=
  {| sources := sources a; out := out a; ext := ext a; verbose := v |}.

(** What a conflict record [(kept, rejected)] says, [l] being the regular
    files enumerated: both carry the same file name; [kept] is the first
    file enumerated under it and [rejected] a file enumerated under it;
    each carries the digest of its file, and the digests differ. *)
Definition conflict_ok (sha256 : bytes → bytes) (fs : filesystem)
    (l : list path) (c : metadata * metadata) : Prop :=
  filename c.1 = filename c.2
  ∧ name (file c.2) = filename c.2
  ∧ first_named l (filename c.1) = Some (file c.1)
  ∧ file c.2 ∈ l
  ∧ ∃ dk dr,
      contents fs (file c.1) = Some dk ∧ contents fs (file c.2) = Some dr
      ∧ md5 c.1 = Some (sha256 dk) ∧ md5 c.2 = Some (sha256 dr)
      ∧ sha256 dk ≠ sha256 dr.

(** What an index record [m] under the key [k] says: it is named [k], its
    file is a regular file of base name [k], found strictly below one of
    the sources, and it carries a digest, that of its file, exactly when
    the name was enumerated more than once. *)
Definition record_ok (sha256 : bytes → bytes) (fs : filesystem) (a : args)
    (k : string) (m : metadata) : Prop :=
  filename m = k ∧ name (file m) = k
  ∧ (∃ src, src ∈ sources a ∧ src `prefix_of` file m ∧ file m ≠ src)
  ∧ ∃ d, contents fs (file m) = Some d
         ∧ md5 m = if decide (count_named (candidates fs a) k = 1)
                   then None else Some (sha256 d).

End Dedup.


(* ===================================================================== *)
(** * sortfile.py                                                         *)
(* ===================================================================== *)

Module Sortfile.
Import FS.

Record args := {
  source : path;
  out : path;
  groupby : string;
  sep : string;
  verbose : bool;
}.

(** A naive [datetime]: the fields of a local wall-clock time. *)
Record datetime := {
  year : Z;
  month : Z;
  day : Z;
  hour : Z;
  minute : Z;
  second : Z;
}.

(** The proleptic Gregorian date of a day number counted from
    1970-01-01, as the C library's [localtime] computes it. *)
Definition civil_from_days (days : Z) : Z * Z * Z :=
  let z := days + 719468 in
  let era := z / 146097 in
  let doe := z - era * 146097 in
  let yoe := (doe - doe / 1460 + doe / 36524 - doe / 146096) / 365 in
  let doy := doe - (365 * yoe + yoe / 4 - yoe / 100) in
  let mp := (5 * doy + 2) / 153 in
  let d := doy - (153 * mp + 2) / 5 + 1 in
  let m := if mp <? 10 then mp + 3 else mp - 9 in
  let y := yoe + era * 400 in
  (if m <=? 2 then y + 1 else y, m, d).

(** Two decimal digits, and a number in decimal. *)
Definition digit (n : Z) : ascii := ascii_of_nat (48 + Z.to_nat (n mod 10)).

Definition pad2 (n : Z) : string :=
  String (digit (n / 10)) (String (digit n) "").

Definition decimal (n : Z) : string :=
  DecimalString.NilZero.string_of_int (Z.to_int n).

(** [str.format] with one or two positional arguments is string
    concatenation here. *)
Definition select_datestr (groupby sep : string) : option string :=
  if decide (groupby = "y") then Some "%Y/"
  else if decide (groupby = "ym") then Some ("%Y" +:+ sep +:+ "%m/")
  else if decide (groupby = "ymd")
       then Some ("%Y" +:+ sep +:+ "%m" +:+ sep +:+ "%d/")
  else None.

(** The components of a relative path given as a string: pathlib splits
    at ["/"] and drops empty and ["."] components.  A [".."] component is
    kept as a name, as pathlib keeps it; the slug starts with the year, so
    it is never an absolute path. *)
Fixpoint split_slash (s : string) : list string :=
  match s with
  | EmptyString => [EmptyString]
  | String c rest =>
      if decide (c = "/"%char) then EmptyString :: split_slash rest
      else
        match split_slash rest with
        | h :: t => String c h :: t
        | [] => [String c EmptyString]
        end
  end.

Definition parts (s : string) : list string :=
  List.filter (λ c, negb (String.eqb c "") && negb (String.eqb c "."))
              (split_slash s).

Inductive event :=
| InfoFormat (datestr : string)
| InfoCopied (src dst : path)
| Summary (file_count : nat) (dst : path).

(** The local variables of [main] that change, and the output so far. *)
Record state := {
  file_count : nat;
  log : list event;
}.

#[global] Instance event_eq_decision : EqDecision event.
Proof. solve_decision. Defined.
#[global] Instance state_eq_decision : EqDecision state.
Proof. solve_decision. Defined.

Definition info (VERBOSE : bool) (e : event) (lg : list event)
  : list event :=
  if VERBOSE then lg ++ [e] else lg.

Section WithClock.

(** The host's time zone: the offset from UTC, in seconds, in force at a
    given instant. *)
Variable utcoffset : Z → Z.

(** The platform's [strftime] for the directives other than [%Y], [%m],
    [%d] and [%%]. *)
Variable platform_directive : ascii → datetime → string.

(** [datetime.fromtimestamp(t)]: local time, not UTC. *)
Definition fromtimestamp (t : Z) : datetime :=
  let local := t + utcoffset t in
  let '(y, m, d) := civil_from_days (local / 86400) in
  let s := local mod 86400 in
  {| year := y; month := m; day := d;
     hour := s / 3600; minute := s mod 3600 / 60; second := s mod 60 |}.

Definition directive (c : ascii) (dt : datetime) : string :=
  if decide (c = "Y"%char) then decimal (year dt)
  else if decide (c = "m"%char) then pad2 (month dt)
  else if decide (c = "d"%char) then pad2 (day dt)
  else if decide (c = "%"%char) then "%"
  else platform_directive c dt.

(** [dt.strftime(fmt)]. *)
Fixpoint strftime (fmt : string) (dt : datetime) : string :=
  match fmt with
  | EmptyString => EmptyString
  | String c rest =>
      if decide (c = "%"%char) then
        match rest with
        | EmptyString => "%"
        | String c' rest' => directive c' dt +:+ strftime rest' dt
        end
      else String c (strftime rest dt)
  end.

(** Where one file goes: [dst / slug / srcfile.name], lines 57-59. *)
Definition destination (datestr : string) (dst : path) (srcfile : path)
    (mtime : Z) : path :=
  let modified := fromtimestamp mtime in
  let slug := strftime datestr modified in
  joinpath (dst ++ parts slug) (name srcfile).

(** The body of the loop, lines 52-64.  An exception leaves in place what
    was made before it. *)
Definition sort_step (VERBOSE : bool) (datestr : string) (dst : path)
    (fs : filesystem) (st : state) (srcfile : path)
  : filesystem * result state :=
  if negb (is_file fs srcfile) then (fs, Ok st)
  else
    match st_mtime fs srcfile with
    | Raise e => (fs, Raise e)
    | Ok t =>
        let dstfile := destination datestr dst srcfile t in
        match makedirs fs (parent dstfile) with
        | Raise e => (fs, Raise e)
        | Ok fs1 =>
            match copy2 fs1 srcfile dstfile with
            | Raise e => (fs1, Raise e)
            | Ok fs2 =>
                (fs2,
                 Ok {| file_count := S (file_count st);
                       log := info VERBOSE (InfoCopied srcfile dstfile)
                                (log st) |})
            end
        end
    end.

(** [for srcfile in files: ...] *)
Fixpoint sort_loop (VERBOSE : bool) (datestr : string) (dst : path)
    (fs : filesystem) (st : state) (files : list path)
  : filesystem * result state :=
  match files with
  | [] => (fs, Ok st)
  | srcfile :: rest =>
      match sort_step VERBOSE datestr dst fs st srcfile with
      | (fs', Raise e) => (fs', Raise e)
      | (fs', Ok st') => sort_loop VERBOSE datestr dst fs' st' rest
      end
  end.

(** [main(args)].  The format string is read at line 33 whatever the
    verbosity (the f-string is an argument of [info]), so a [groupby] that
    matched no branch raises there. *)
Definition main (a : args) (fs : filesystem) : filesystem * result state :=
  match select_datestr (groupby a) (sep a) with
  | None => (fs, Raise UnboundLocalError)
  | Some datestr =>
      let lg := info (verbose a) (InfoFormat datestr) [] in
      match mkdir fs (out a) with
      | Raise e => (fs, Raise e)
      | Ok fs1 =>
          let files := glob fs1 (source a) "" in
          match sort_loop (verbose a) datestr (out a) fs1
                  {| file_count := 0; log := lg |} files with
          | (fs2, Raise e) => (fs2, Raise e)
          | (fs2, Ok st) =>
              (fs2,
               Ok {| file_count := file_count st;
                     log := log st ++ [Summary (file_count st) (out a)] |})
          end
      end
  end.

End WithClock.

(** No ["%"] in a string: [strftime] copies it as it is. *)
Fixpoint percent_free (s : string) : bool :=
  match s with
  | EmptyString => true
  | String c rest => negb (bool_decide (c = "%"%char)) && percent_free rest
  end.

(** The [groupby] values the command line accepts ([choices=...]). *)
Definition choices : list string := ["y"; "ym"; "ymd"].

(** ** Vocabulary for the further properties *)

(** The same arguments with another verbosity. *)
Definition with_verbose (a : args) (v : bool) : args :=
  {| source := source a; out := out a; groupby := groupby a;
     sep := sep a; verbose := v |}.

(** No ["/"] in a string: it stays within one path component. *)
Fixpoint slash_free (s : string) : bool :=
  match s with
  | EmptyString => true
  | String c rest => negb (bool_decide (c = "/"%char)) && slash_free rest
  end.

(** Two outcomes that differ at most in what was printed. *)
Definition same_count (r1 r2 : result state) : Prop :=
  match r1, r2 with
  | Ok s1, Ok s2 => file_count s1 = file_count s2
  | Raise e1, Raise e2 => e1 = e2
  | _, _ => False
  end.

(** Where the loop sends [p], from its modification time in [fs]; nothing
    for what is not a regular file. *)
Definition target (utcoffset : Z → Z)
    (platform_directive : ascii → datetime → string)
    (datestr : string) (dst : path) (fs : filesystem) (p : path)
  : option path :=
  match fs !! p with
  | Some (File _ t _) =>
      Some (destination utcoffset platform_directive datestr dst p t)
  | _ => None
  end.

(** The last path of an enumeration that is sent to [d]. *)
Definition last_sent (utcoffset : Z → Z)
    (platform_directive : ascii → datetime → string)
    (datestr : string) (dst : path) (fs : filesystem) (l : list path)
    (d : path) : option path :=
  last (List.filter
          (λ p, bool_decide
                  (target utcoffset platform_directive datestr dst fs p =
                   Some d)) l).

End Sortfile.


(* ===================================================================== *)
(** * Sample inputs                                                       *)
(* ===================================================================== *)

Module Examples.
Import FS.

Definition bytes_A : bytes := [x41]%byte.
Definition bytes_B : bytes := [x42]%byte.

(** A stand-in for SHA-256 to run the model with: the identity, which has
    no collisions. *)
Definition plain_digest (b : bytes) : bytes := b.

(** Three source directories; [x.txt] is in all three, with other bytes
    in [/b]; [y.txt] is in [/c] only.  [/o] does not exist. *)
Definition tree : filesystem :=
  list_to_map
    [([], Dir); (["a"], Dir); (["b"], Dir); (["c"], Dir);
     (["a"; "x.txt"], File bytes_A 10 true);
     (["b"; "x.txt"], File bytes_B 20 true);
     (["c"; "x.txt"], File bytes_A 30 true);
     (["c"; "y.txt"], File bytes_A 30 true)].

(** The same tree with [/c/x.txt] unreadable. *)
Definition locked_tree : filesystem :=
  <[["c"; "x.txt"] := File bytes_A 30 false]> tree.

(** The same tree after a first run into [/o] has been cleared away and an
    unrelated directory has appeared. *)
Definition tree_again : filesystem := <[["elsewhere"] := Dir]> tree.

Definition dedup_args : Dedup.args :=
  {| Dedup.sources := [["a"]; ["b"]; ["c"]]; Dedup.out := ["o"];
     Dedup.ext := None; Dedup.verbose := false |}.

(** The state of the index loop once [/a/x.txt] has been seen. *)
Definition after_first : Dedup.state :=
  {| Dedup.skip_count := 0; Dedup.conflict_count := 0;
     Dedup.conflicts := [];
     Dedup.files :=
       [("x.txt", {| Dedup.file := ["a"; "x.txt"];
                     Dedup.filename := "x.txt"; Dedup.md5 := None |})];
     Dedup.log := [] |}.

(** What the run over [tree] into [/o] leaves: the file system and the
    final state. *)
Definition tree_merged : filesystem :=
  <[["o"; "y.txt"] := File bytes_A 30 true]>
    (<[["o"; "x.txt"] := File bytes_A 10 true]> (<[["o"] := Dir]> tree)).

Definition kept_x : Dedup.metadata :=
  {| Dedup.file := ["a"; "x.txt"]; Dedup.filename := "x.txt";
     Dedup.md5 := Some bytes_A |}.

Definition merged_state : Dedup.state :=
  {| Dedup.skip_count := 2; Dedup.conflict_count := 1;
     Dedup.conflicts :=
       [(kept_x,
         {| Dedup.file := ["b"; "x.txt"]; Dedup.filename := "x.txt";
            Dedup.md5 := Some bytes_B |})];
     Dedup.files :=
       [("x.txt", kept_x);
        ("y.txt", {| Dedup.file := ["c"; "y.txt"];
                     Dedup.filename := "y.txt"; Dedup.md5 := None |})];
     Dedup.log :=
       [Dedup.Sha256 Dedup.NewFile ["b"; "x.txt"];
        Dedup.Sha256 Dedup.IndexRecord ["a"; "x.txt"];
        Dedup.Warning ["a"; "x.txt"] ["b"; "x.txt"];
        Dedup.Sha256 Dedup.NewFile ["c"; "x.txt"];
        Dedup.Sha256 Dedup.IndexRecord ["a"; "x.txt"];
        Dedup.Summary 2 3 2 1] |}.

(** UTC as the local time zone, and a platform whose other directives
    print nothing. *)
Definition utc (t : Z) : Z := 0.
Definition no_directive (c : ascii) (dt : Sortfile.datetime) : string := "".

(** A source tree with two files named [x.txt], both modified on
    2021-01-02 (UTC), and one file modified on 2021-07-01; the output
    directory [/o] exists and is empty. *)
Definition dated_tree : filesystem :=
  list_to_map
    [([], Dir); (["s"], Dir); (["s"; "b"], Dir); (["o"], Dir);
     (["s"; "x.txt"], File bytes_A 1609545600 true);
     (["s"; "b"; "x.txt"], File bytes_B 1609549200 true);
     (["s"; "y.txt"], File bytes_A 1625140800 true)].

(** The same tree once [/s/y.txt] has been sorted, and once [/s/x.txt]
    has been sorted too. *)
Definition dated_after_y : filesystem :=
  <[["o"; "2021.07.01"; "y.txt"] := File bytes_A 1625140800 true]>
    (<[["o"; "2021.07.01"] := Dir]> dated_tree).

Definition dated_after_x : filesystem :=
  <[["o"; "2021.01.02"; "x.txt"] := File bytes_A 1609545600 true]>
    (<[["o"; "2021.01.02"] := Dir]> dated_after_y).

Definition sorted (n : nat) : Sortfile.state :=
  {| Sortfile.file_count := n; Sortfile.log := [] |}.

Definition sort_args : Sortfile.args :=
  {| Sortfile.source := ["s"]; Sortfile.out := ["o"];
     Sortfile.groupby := "ymd"; Sortfile.sep := ".";
     Sortfile.verbose := false |}.

(** The sample tree with [/c/y.txt], the only file of its name,
    unreadable; and what the run over it leaves when it stops. *)
Definition half_locked : filesystem :=
  <[["c"; "y.txt"] := File bytes_A 30 false]> tree.

Definition half_locked_stopped : filesystem :=
  <[["o"; "x.txt"] := File bytes_A 10 true]>
    (<[["o"] := Dir]> half_locked).





(** The dated tree once all three files have been sorted ([/s/b/x.txt]
    over the copy of [/s/x.txt]), and the state of that run. *)
Definition dated_sorted : filesystem :=
  <[["o"; "2021.01.02"; "x.txt"] := File bytes_B 1609549200 true]>
    dated_after_x.

Definition sorted_state : Sortfile.state :=
  {| Sortfile.file_count := 3; Sortfile.log := [Sortfile.Summary 3 ["o"]] |}.

(** The dated tree with [/s/x.txt] unreadable, and that tree once
    [/s/y.txt] has been sorted. *)
Definition dated_locked : filesystem :=
  <[["s"; "x.txt"] := File bytes_A 1609545600 false]> dated_tree.

Definition dated_locked_after_y : filesystem :=
  <[["o"; "2021.07.01"; "y.txt"] := File bytes_A 1625140800 true]>
    (<[["o"; "2021.07.01"] := Dir]> dated_locked).

(** Runs whose output path [/a/x.txt] (resp. [/s/x.txt]) is a regular
    file. *)
Definition dedup_onto_file : Dedup.args :=
  {| Dedup.sources := [["b"]; ["c"]]; Dedup.out := ["a"; "x.txt"];
     Dedup.ext := None; Dedup.verbose := false |}.

Definition sort_onto_file : Sortfile.args :=
  {| Sortfile.source := ["s"; "b"]; Sortfile.out := ["s"; "x.txt"];
     Sortfile.groupby := "y"; Sortfile.sep := "-";
     Sortfile.verbose := false |}.

(** A run whose source [/nowhere] does not exist. *)
Definition sort_nowhere : Sortfile.args :=
  {| Sortfile.source := ["nowhere"]; Sortfile.out := ["o"];
     Sortfile.groupby := "ym"; Sortfile.sep := "-";
     Sortfile.verbose := true |}.

End Examples.

(* ===================================================================== *)
(** * Properties of the environment                                      *)
(* ===================================================================== *)

Module FSFacts.
Import FS.

Lemma parent_joinpath p n : parent (joinpath p n) = p.
Proof. apply removelast_last. Qed.

Lemma name_joinpath p n : name (joinpath p n) = n.
Proof. apply last_last. Qed.

Lemma joinpath_ne p n : joinpath p n ≠ p.
Proof.
  unfold joinpath. intros H. apply (f_equal length) in H.
  rewrite length_app in H. simpl in H. lia.
Qed.

Lemma joinpath_inj p n1 n2 : joinpath p n1 = joinpath p n2 → n1 = n2.
Proof. unfold joinpath. intros H. apply app_inv_head in H. congruence. Qed.

Lemma mkdir_IOError fs p e : mkdir fs p = Raise e → is_IOError e = true.
Proof.
  unfold mkdir, os_mkdir.
  destruct (fs !! p) as [x|]; simpl.
  - destruct (is_dir fs p); [done | by intros [= <-]].
  - destruct (fs !! parent p) as [[|d t r]|]; simpl; try done.
    + destruct (is_dir fs p); [done | by intros [= <-]].
    + by intros [= <-].
Qed.

(** The directory exists already: nothing changes. *)
Lemma mkdir_existing fs p : fs !! p = Some Dir → mkdir fs p = Ok fs.
Proof. intros H. unfold mkdir, os_mkdir, is_dir. by rewrite H. Qed.

(** The directory is absent and its parent is a directory: it is made. *)
Lemma mkdir_absent fs p :
  fs !! p = None → fs !! parent p = Some Dir →
  mkdir fs p = Ok (<[p := Dir]> fs).
Proof. intros H1 H2. unfold mkdir, os_mkdir. by rewrite H1, H2. Qed.


Lemma mkdir_Ok fs p fs' :
  mkdir fs p = Ok fs' →
  fs' !! p = Some Dir ∧
  ((fs !! p = Some Dir ∧ fs' = fs) ∨ (fs !! p = None ∧ fs' = <[p := Dir]> fs)).
Proof.
  unfold mkdir, os_mkdir, is_dir.
  destruct (fs !! p) as [[|d t r]|] eqn:Hp; simpl; try done.
  - intros [= <-]. split; [done | by left].
  - destruct (fs !! parent p) as [[|d t r]|]; simpl; try done.
    intros [= <-]. split; [apply lookup_insert_eq | by right].
Qed.

(** A plain copy: readable source, a destination that is another path and
    not a directory, inside an existing directory. *)
Lemma copy2_file fs src dst d t :
  fs !! src = Some (File d t true) → src ≠ dst →
  is_dir fs dst = false → fs !! parent dst = Some Dir →
  copy2 fs src dst = Ok (<[dst := File d t true]> fs).
Proof.
  intros Hs Hne Hd Hp. unfold copy2. rewrite Hd, Hs, Hp.
  rewrite bool_decide_eq_false_2 by done. simpl.
  unfold is_dir in Hd. by destruct (fs !! dst) as [[|]|].
Qed.

Lemma os_mkdir_IOError fs p e : os_mkdir fs p = Raise e → is_IOError e = true.
Proof.
  unfold os_mkdir. destruct (fs !! p); [by intros [= <-] |].
  destruct (fs !! parent p) as [[|d t r]|]; try done; by intros [= <-].
Qed.

Lemma os_mkdir_Ok fs p fs' :
  os_mkdir fs p = Ok fs' →
  fs !! p = None ∧ fs !! parent p = Some Dir ∧ fs' = <[p := Dir]> fs.
Proof.
  unfold os_mkdir. destruct (fs !! p); [done |].
  destruct (fs !! parent p) as [[|d t r]|]; try done. by intros [= <-].
Qed.

(** [mkdir] and [makedirs] add directories at absent paths and touch
    nothing else. *)
Lemma mkdir_preserves fs p fs' q x :
  mkdir fs p = Ok fs' → fs !! q = Some x → fs' !! q = Some x.
Proof.
  intros [_ [[_ ->]|[Hp ->]]]%mkdir_Ok Hq; [done |].
  rewrite lookup_insert_ne; [done | congruence].
Qed.

Lemma makedirs_aux_preserves n fs p fs' q x :
  makedirs_aux n fs p = Ok fs' → fs !! q = Some x → fs' !! q = Some x.
Proof.
  revert fs p fs'. induction n as [|n IH]; intros fs p fs'; simpl.
  - destruct (os_mkdir fs p) as [fs1|e] eqn:Hmk.
    + intros [= <-] Hq. apply os_mkdir_Ok in Hmk as (Hp & _ & ->).
      rewrite lookup_insert_ne; [done | congruence].
    + destruct e; try (destruct (is_dir fs p); [by intros [= <-] | done]); done.
  - destruct (os_mkdir fs p) as [fs1|e] eqn:Hmk.
    + intros [= <-] Hq. apply os_mkdir_Ok in Hmk as (Hp & _ & ->).
      rewrite lookup_insert_ne; [done | congruence].
    + destruct e; try (destruct (is_dir fs p); [by intros [= <-] | done]).
      destruct (decide (parent p = p)); [done |].
      destruct (makedirs_aux n fs (parent p)) as [fs1|e] eqn:Hrec; simpl; [| done].
      intros Hmk2 Hq. eapply mkdir_preserves; [done |]. by eapply IH.
Qed.

Lemma makedirs_preserves fs p fs' q x :
  makedirs fs p = Ok fs' → fs !! q = Some x → fs' !! q = Some x.
Proof. apply makedirs_aux_preserves. Qed.



Lemma makedirs_aux_IOError n fs p e :
  makedirs_aux n fs p = Raise e → is_IOError e = true.
Proof.
  revert fs p e. induction n as [|n IH]; intros fs p e; simpl.
  - destruct (os_mkdir fs p) as [fs1|e1] eqn:Hmk; [done |].
    apply os_mkdir_IOError in Hmk.
    destruct e1; try (destruct (is_dir fs p); [done | by intros [= <-]]);
      by intros [= <-].
  - destruct (os_mkdir fs p) as [fs1|e1] eqn:Hmk; [done |].
    apply os_mkdir_IOError in Hmk.
    destruct e1; try (destruct (is_dir fs p); [done | by intros [= <-]]).
    destruct (decide (parent p = p)); [by intros [= <-] |].
    destruct (makedirs_aux n fs (parent p)) as [fs1|e1] eqn:Hrec; simpl.
    + apply mkdir_IOError.
    + intros [= <-]. by eapply IH.
Qed.

Lemma makedirs_IOError fs p e : makedirs fs p = Raise e → is_IOError e = true.
Proof. apply makedirs_aux_IOError. Qed.

Lemma copy2_IOError fs src dst e :
  copy2 fs src dst = Raise e → is_IOError e = true.
Proof.
  unfold copy2. destruct (_ && _); [by intros [= <-] |].
  destruct (fs !! src) as [[|d t [|]]|]; try by intros [= <-].
  destruct (fs !! _) as [[|d1 t1 r1]|]; try by intros [= <-].
  - destruct (fs !! parent _) as [[|d2 t2 r2]|]; try done; by intros [= <-].
  - destruct (fs !! parent _) as [[|d2 t2 r2]|]; try done; by intros [= <-].
Qed.

Lemma st_mtime_IOError fs p e : st_mtime fs p = Raise e → is_IOError e = true.
Proof.
  unfold st_mtime. destruct (fs !! p) as [[|d t r]|]; try done. by intros [= <-].
Qed.

(** A successful [copy2] wrote a readable regular file at a path that held
    no directory, inside a directory, and changed nothing else. *)
Lemma copy2_Ok fs src dst fs' :
  copy2 fs src dst = Ok fs' →
  ∃ d t q,
    q = (if is_dir fs dst then joinpath dst (name src) else dst)
    ∧ fs !! src = Some (File d t true) ∧ fs !! q ≠ Some Dir
    ∧ fs !! parent q = Some Dir ∧ fs' = <[q := File d t true]> fs.
Proof.
  unfold copy2. destruct (_ && _); [done |].
  destruct (fs !! src) as [[|d t [|]]|]; try done.
  set (q := if is_dir fs dst then _ else _).
  destruct (fs !! q) as [[|d1 t1 r1]|] eqn:Hq; try done;
    (destruct (fs !! parent q) as [[|d2 t2 r2]|] eqn:Hp; try done);
    intros [= <-]; exists d, t, q; by rewrite Hq.
Qed.

(** Well-formedness is kept by every operation. *)
Lemma wf_insert_dir fs p :
  wf fs → fs !! p = None → fs !! parent p = Some Dir → wf (<[p := Dir]> fs).
Proof.
  intros Hwf Hp Hpp q x Hq Hne.
  destruct (decide (p = q)) as [<-|Hpq].
  - rewrite lookup_insert_ne; [done | congruence].
  - rewrite lookup_insert_ne in Hq by done.
    pose proof (Hwf q x Hq Hne) as Hpar.
    destruct (decide (p = parent q)) as [->|Hp'];
      [apply lookup_insert_eq | by rewrite lookup_insert_ne].
Qed.

Lemma wf_insert_file fs p d t r :
  wf fs → fs !! p ≠ Some Dir → fs !! parent p = Some Dir →
  wf (<[p := File d t r]> fs).
Proof.
  intros Hwf Hp Hpp q x Hq Hne.
  destruct (decide (p = q)) as [<-|Hpq].
  - rewrite lookup_insert_ne; [done | congruence].
  - rewrite lookup_insert_ne in Hq by done.
    pose proof (Hwf q x Hq Hne) as Hpar.
    rewrite lookup_insert_ne; [done | congruence].
Qed.

Lemma mkdir_wf fs p fs' : wf fs → mkdir fs p = Ok fs' → wf fs'.
Proof.
  intros Hwf Hmk. unfold mkdir in Hmk.
  destruct (os_mkdir fs p) as [fs1|e] eqn:Hos.
  - injection Hmk as <-. apply os_mkdir_Ok in Hos as (Hp & Hpp & ->).
    by apply wf_insert_dir.
  - destruct e; try (destruct (is_dir fs p); [by injection Hmk as <- | done]).
    done.
Qed.

Lemma makedirs_aux_wf n fs p fs' :
  wf fs → makedirs_aux n fs p = Ok fs' → wf fs'.
Proof.
  revert fs p fs'. induction n as [|n IH]; intros fs p fs' Hwf; simpl.
  - destruct (os_mkdir fs p) as [fs1|e] eqn:Hos.
    + intros [= <-]. apply os_mkdir_Ok in Hos as (Hp & Hpp & ->).
      by apply wf_insert_dir.
    + destruct e; try (destruct (is_dir fs p); [by intros [= <-] | done]); done.
  - destruct (os_mkdir fs p) as [fs1|e] eqn:Hos.
    + intros [= <-]. apply os_mkdir_Ok in Hos as (Hp & Hpp & ->).
      by apply wf_insert_dir.
    + destruct e; try (destruct (is_dir fs p); [by intros [= <-] | done]).
      destruct (decide (parent p = p)); [done |].
      destruct (makedirs_aux n fs (parent p)) as [fs1|e] eqn:Hrec; simpl; [| done].
      intros Hmk. eapply mkdir_wf; [| done]. by eapply IH.
Qed.

Lemma makedirs_wf fs p fs' : wf fs → makedirs fs p = Ok fs' → wf fs'.
Proof. apply makedirs_aux_wf. Qed.

Lemma copy2_wf fs src dst fs' : wf fs → copy2 fs src dst = Ok fs' → wf fs'.
Proof.
  intros Hwf (d & t & q & _ & _ & Hq & Hp & ->)%copy2_Ok.
  by apply wf_insert_file.
Qed.

(** A regular file stays a regular file under [copy2]. *)
Lemma copy2_is_file fs src dst fs' q :
  copy2 fs src dst = Ok fs' → is_file fs q = true → is_file fs' q = true.
Proof.
  intros (d & t & q' & _ & _ & _ & _ & ->)%copy2_Ok. unfold is_file.
  destruct (decide (q' = q)) as [->|Hne];
    [by rewrite lookup_insert_eq | by rewrite lookup_insert_ne].
Qed.

(** A directory stays a directory under [copy2]. *)
Lemma copy2_dir fs src dst fs' q :
  copy2 fs src dst = Ok fs' → fs !! q = Some Dir → fs' !! q = Some Dir.
Proof.
  intros (d & t & q' & _ & _ & Hq' & _ & ->)%copy2_Ok Hq.
  rewrite lookup_insert_ne; [done | congruence].
Qed.




(** Closed equations between file systems and run results are decided by
    evaluation. *)
Ltac by_evaluation := apply (bool_decide_unpack _); vm_compute; exact I.


Lemma emptyb_empty fs out :
  emptyb fs out = true → ∀ n, fs !! joinpath out n = None.
Proof.
  unfold emptyb. rewrite forallb_forall. intros H n.
  destruct (fs !! joinpath out n) as [x|] eqn:Hx; [| done].
  apply elem_of_map_to_list, list_elem_of_In, H in Hx. simpl in Hx.
  apply orb_prop in Hx as [Hx|Hx].
  - apply bool_decide_eq_true in Hx. unfold joinpath in Hx.
    by destruct out.
  - apply negb_true_iff, bool_decide_eq_false in Hx.
    by rewrite parent_joinpath in Hx.
Qed.

End FSFacts.

(* ===================================================================== *)
(** * Properties of dedup.py                                             *)
(* ===================================================================== *)

Module DedupFacts.
Import FS FSFacts Dedup.
Local Open Scope nat_scope.

(** ** Lemmas on the dictionary *)

Lemma dict_get_set_eq d k v : dict_get (dict_set d k v) k = Some v.
Proof.
  induction d as [|[k' v'] d IH]; simpl.
  - by rewrite decide_True.
  - destruct (decide (k' = k)) as [->|Hne]; simpl.
    + by rewrite decide_True.
    + by rewrite decide_False.
Qed.

Lemma dict_get_set_ne d k k' v :
  k ≠ k' → dict_get (dict_set d k v) k' = dict_get d k'.
Proof.
  intros Hne. induction d as [|[k0 v0] d IH]; simpl.
  - by rewrite decide_False.
  - destruct (decide (k0 = k)) as [->|Hne0]; simpl.
    + by rewrite !decide_False.
    + destruct (decide (k0 = k')); [done | apply IH].
Qed.

Lemma dict_set_absent d k v :
  dict_get d k = None → dict_set d k v = d ++ [(k, v)].
Proof.
  induction d as [|[k0 v0] d IH]; simpl; [done |].
  destruct (decide (k0 = k)); [done |]. intros H. by rewrite IH.
Qed.

Lemma dict_set_present_keys d k v v0 :
  dict_get d k = Some v0 → map fst (dict_set d k v) = map fst d.
Proof.
  induction d as [|[k0 v1] d IH]; simpl; [done |].
  destruct (decide (k0 = k)); simpl; [done |]. intros H. by rewrite IH.
Qed.

Lemma dict_get_None d k : dict_get d k = None ↔ k ∉ map fst d.
Proof.
  induction d as [|[k0 v0] d IH]; simpl.
  - split; [intros _; apply not_elem_of_nil | done].
  - rewrite not_elem_of_cons. destruct (decide (k0 = k)) as [->|Hne].
    + split; [done | intros [? _]; done].
    + rewrite IH. split; [intros ?; split; [done | done] | intros [_ ?]; done].
Qed.

Lemma dict_get_elem_of d k v : dict_get d k = Some v → (k, v) ∈ d.
Proof.
  induction d as [|[k0 v0] d IH]; simpl; [done |].
  destruct (decide (k0 = k)) as [->|Hne].
  - intros [= ->]. apply elem_of_cons. by left.
  - intros H. apply elem_of_cons. right. by apply IH.
Qed.

Lemma dict_elem_of_get d k v :
  NoDup (map fst d) → (k, v) ∈ d → dict_get d k = Some v.
Proof.
  induction d as [|[k0 v0] d IH]; simpl.
  - intros _ H. by apply elem_of_nil in H.
  - rewrite NoDup_cons. intros [Hk Hnd] [H|H]%elem_of_cons.
    + injection H as -> ->. by rewrite decide_True.
    + rewrite decide_False; [by apply IH |].
      intros ->. apply Hk. by apply (list_elem_of_fmap_2 fst) in H.
Qed.

Lemma first_named_name l n p : first_named l n = Some p → name p = n.
Proof.
  induction l as [|q l IH]; simpl; [done |].
  destruct (decide (name q = n)); [by intros [= <-] | done].
Qed.

Lemma first_named_elem_of l n p : first_named l n = Some p → p ∈ l.
Proof.
  induction l as [|q l IH]; simpl; [done |]. rewrite elem_of_cons.
  destruct (decide (name q = n)); [intros [= <-]; by left | auto].
Qed.

Lemma first_named_app l1 l2 n :
  first_named (l1 ++ l2) n =
  match first_named l1 n with
  | Some p => Some p
  | None => first_named l2 n
  end.
Proof.
  induction l1 as [|q l1 IH]; simpl; [done |].
  by destruct (decide (name q = n)).
Qed.

Lemma count_named_app l1 l2 n :
  count_named (l1 ++ l2) n = count_named l1 n + count_named l2 n.
Proof.
  induction l1 as [|q l1 IH]; simpl; [done |].
  destruct (decide (name q = n)); simpl; by rewrite IH.
Qed.

Lemma first_named_None_count l n :
  first_named l n = None ↔ count_named l n = 0.
Proof.
  induction l as [|q l IH]; simpl; [done |].
  by destruct (decide (name q = n)).
Qed.

Lemma first_named_is_Some l n :
  is_Some (first_named l n) ↔ ∃ p, p ∈ l ∧ name p = n.
Proof.
  induction l as [|q l IH]; simpl.
  - split; [by intros [? ?] | intros (p & H & _); by apply elem_of_nil in H].
  - destruct (decide (name q = n)) as [Hq|Hq].
    + split; [intros _; exists q; split; [apply elem_of_cons; by left | done]
             | by eexists].
    + rewrite IH. split; intros (p & Hp & Hn).
      * exists p. split; [apply elem_of_cons; by right | done].
      * apply elem_of_cons in Hp as [->|Hp]; [done | by exists p].
Qed.

Lemma first_named_snoc_ne l p n :
  name p ≠ n → first_named (l ++ [p]) n = first_named l n.
Proof.
  intros Hne. rewrite first_named_app. simpl. rewrite decide_False by done.
  by destruct (first_named l n).
Qed.

Lemma first_named_snoc_Some l p n r :
  first_named l n = Some r → first_named (l ++ [p]) n = Some r.
Proof. intros H. by rewrite first_named_app, H. Qed.

Lemma first_named_snoc_None l p :
  first_named l (name p) = None → first_named (l ++ [p]) (name p) = Some p.
Proof. intros H. rewrite first_named_app, H. simpl. by rewrite decide_True. Qed.

Lemma count_named_snoc_ne l p n :
  name p ≠ n → count_named (l ++ [p]) n = count_named l n.
Proof.
  intros Hne. rewrite count_named_app. simpl. rewrite decide_False by done. lia.
Qed.

Lemma count_named_snoc_eq l p :
  count_named (l ++ [p]) (name p) = S (count_named l (name p)).
Proof. rewrite count_named_app. simpl. rewrite decide_True by done. lia. Qed.

Lemma hash_count_app site p l1 l2 :
  hash_count site p (l1 ++ l2) = hash_count site p l1 + hash_count site p l2.
Proof. unfold hash_count. by rewrite List.filter_app, length_app. Qed.

Lemma hash_total_app l1 l2 :
  hash_total (l1 ++ l2) = hash_total l1 + hash_total l2.
Proof. unfold hash_total. by rewrite List.filter_app, length_app. Qed.

Lemma hash_total_info V e lg :
  is_hash e = false → hash_total (info V e lg) = hash_total lg.
Proof.
  intros He. destruct V; simpl; [| done].
  rewrite hash_total_app. unfold hash_total at 2. simpl. rewrite He. simpl. lia.
Qed.

Lemma hash_count_info site p V e lg :
  (∀ s q, e ≠ Sha256 s q) →
  hash_count site p (info V e lg) = hash_count site p lg.
Proof.
  intros He. destruct V; simpl; [| done].
  rewrite hash_count_app. unfold hash_count at 2. simpl.
  rewrite bool_decide_eq_false_2; [simpl; lia | apply He].
Qed.

Lemma chosen_set d k v v0 :
  dict_get d k = Some v0 → file v = file v0 →
  chosen (dict_set d k v) = chosen d.
Proof.
  unfold chosen. induction d as [|[k1 v1] d IH]; simpl; [done |].
  destruct (decide (k1 = k)) as [->|Hne]; simpl.
  - intros [= ->] Hf. by rewrite Hf.
  - intros Hg Hf. by rewrite IH.
Qed.

(** ** The index-building loops *)

Section Scan.

Variable sha256 : bytes → bytes.
Variable VERBOSE : bool.
Variable fs : filesystem.

Lemma scan_app st l1 l2 :
  scan sha256 VERBOSE fs st (l1 ++ l2) =
  (st' ← scan sha256 VERBOSE fs st l1; scan sha256 VERBOSE fs st' l2).
Proof.
  revert st. induction l1 as [|p l1 IH]; intros st; simpl; [done |].
  destruct (process sha256 VERBOSE fs st p) as [st'|e]; simpl; [apply IH | done].
Qed.

(** Entries that are not regular files leave the state alone. *)
Lemma scan_regular st l :
  scan sha256 VERBOSE fs st l =
  scan sha256 VERBOSE fs st (List.filter (is_file fs) l).
Proof.
  revert st. induction l as [|p l IH]; intros st; simpl; [done |].
  destruct (is_file fs p) eqn:Hp; simpl.
  - destruct (process sha256 VERBOSE fs st p); simpl; [apply IH | done].
  - unfold process, file_as_bytes. rewrite Hp. simpl. apply IH.
Qed.

(** The nested loops are one pass over the concatenated enumeration. *)
Lemma build_scan ext st srcpaths :
  build sha256 VERBOSE fs ext st srcpaths =
  scan sha256 VERBOSE fs st (concat (map (λ src, glob fs src ext) srcpaths)).
Proof.
  revert st. induction srcpaths as [|src rest IH]; intros st; simpl; [done |].
  rewrite scan_app.
  destruct (scan sha256 VERBOSE fs st (glob fs src ext)); simpl; [apply IH | done].
Qed.

Lemma read_bytes_IOError p e : read_bytes fs p = Raise e → is_IOError e = true.
Proof.
  unfold read_bytes. destruct (fs !! p) as [[|d t [|]]|]; by intros [= <-].
Qed.

Lemma read_bytes_Ok p :
  is_file fs p = true → readable fs p = true →
  ∃ d, read_bytes fs p = Ok d ∧ contents fs p = Some d.
Proof.
  unfold is_file, readable, read_bytes, contents.
  destruct (fs !! p) as [[|d t r]|]; try done. intros _ ->. by exists d.
Qed.

Lemma read_bytes_unreadable p :
  readable fs p = false → ∃ e, read_bytes fs p = Raise e.
Proof.
  unfold readable, read_bytes.
  destruct (fs !! p) as [[|d t [|]]|]; try done; by eexists.
Qed.

Lemma process_IOError st p e :
  process sha256 VERBOSE fs st p = Raise e → is_IOError e = true.
Proof.
  unfold process, file_as_bytes. destruct (negb (is_file fs p)); [done |].
  destruct (dict_get (files st) (name p)) as [kept|]; [| done].
  destruct (read_bytes fs p) as [d|e1] eqn:H1; simpl.
  - destruct (read_bytes fs (file kept)) as [d'|e2] eqn:H2; simpl.
    + by destruct (decide _).
    + intros [= <-]. by eapply read_bytes_IOError.
  - intros [= <-]. by eapply read_bytes_IOError.
Qed.

Lemma scan_IOError st l e :
  scan sha256 VERBOSE fs st l = Raise e → is_IOError e = true.
Proof.
  revert st. induction l as [|p l IH]; intros st; simpl; [done |].
  destruct (process sha256 VERBOSE fs st p) as [st'|e1] eqn:Hp; simpl.
  - apply IH.
  - intros [= <-]. by eapply process_IOError.
Qed.

(** A first sighting: the record is appended, nothing is hashed. *)
Lemma process_first st p :
  is_file fs p = true → dict_get (files st) (name p) = None →
  process sha256 VERBOSE fs st p =
  Ok {| skip_count := skip_count st;
        conflict_count := conflict_count st;
        conflicts := conflicts st;
        files := files st ++
                 [(name p, {| file := p; filename := name p; md5 := None |})];
        log := log st |}.
Proof.
  intros Hf Hg. unfold process, file_as_bytes. rewrite Hf, Hg. simpl.
  by rewrite dict_set_absent.
Qed.

(** A collision, whatever the digests: both files are read and hashed, the
    record keeps its file and gets the digest stored, the skip counter
    moves by one. *)
Lemma process_collision st p kept st' :
  is_file fs p = true → dict_get (files st) (name p) = Some kept →
  process sha256 VERBOSE fs st p = Ok st' →
  ∃ d d',
    read_bytes fs p = Ok d ∧ read_bytes fs (file kept) = Ok d' ∧
    files st' = dict_set (files st) (name p)
                  {| file := file kept; filename := filename kept;
                     md5 := Some (sha256 d') |} ∧
    skip_count st' = S (skip_count st) ∧
    (∀ site q, hash_count site q (log st') =
               hash_count site q (log st)
               + (if bool_decide (Sha256 NewFile p = Sha256 site q) then 1 else 0)
               + (if bool_decide (Sha256 IndexRecord (file kept) = Sha256 site q)
                  then 1 else 0)) ∧
    hash_total (log st') = hash_total (log st) + 2.
Proof.
  intros Hf Hg. unfold process, file_as_bytes. rewrite Hf, Hg. simpl.
  destruct (read_bytes fs p) as [d|e1]; simpl; [| done].
  destruct (read_bytes fs (file kept)) as [d'|e2]; simpl; [| done].
  intros H. exists d, d'. split; [done |]. split; [done |].
  assert (Hone : ∀ site q e, hash_count site q [e] =
            if bool_decide (e = Sha256 site q) then 1 else 0).
  { intros site q e. unfold hash_count. simpl. by destruct (bool_decide _). }
  destruct (decide _); injection H as <-; simpl;
    (split; [done |]); (split; [done |]); (split; [intros site q |]).
  - rewrite !hash_count_app, !Hone.
    rewrite (bool_decide_eq_false_2 (Warning _ _ = _)); [lia | done].
  - rewrite !hash_total_app. unfold hash_total at 2 3 4. simpl. lia.
  - rewrite hash_count_info by done. by rewrite !hash_count_app, !Hone.
  - rewrite hash_total_info by done. rewrite !hash_total_app.
    unfold hash_total at 2 3. simpl. lia.
Qed.

Lemma scanned_initial : scanned [] initial.
Proof.
  split; simpl; try done. apply NoDup_nil_2.
Qed.

Lemma scanned_step l st p st' :
  is_file fs p = true → scanned l st →
  process sha256 VERBOSE fs st p = Ok st' → scanned (l ++ [p]) st'.
Proof.
  intros Hf [Hk Hfirst Hfn Hskip Hconf Hh Ht Hc] Hp.
  assert (Hkeys : map fst (chosen (files st)) = map fst (files st)).
  { unfold chosen. rewrite map_map. by apply map_ext. }
  destruct (dict_get (files st) (name p)) as [kept|] eqn:Hg.
  - (* collision *)
    pose proof (Hfirst (name p)) as Hfp. rewrite Hg in Hfp. simpl in Hfp.
    destruct (process_collision st p kept st' Hf Hg Hp)
      as (d & d' & Hr1 & Hr2 & Hfiles & Hsk & Hlog & Htot).
    split.
    + rewrite Hfiles. by erewrite dict_set_present_keys.
    + intros n. rewrite Hfiles, first_named_app. simpl.
      destruct (decide (name p = n)) as [<-|Hne].
      * rewrite dict_get_set_eq. simpl. by rewrite <- Hfp.
      * rewrite dict_get_set_ne by done. rewrite Hfirst.
        by destruct (first_named l n).
    + intros n m. rewrite Hfiles.
      destruct (decide (name p = n)) as [<-|Hne].
      * rewrite dict_get_set_eq. intros [= <-]. simpl. by apply Hfn.
      * rewrite dict_get_set_ne by done. apply Hfn.
    + rewrite Hfiles, Hsk, length_app. simpl.
      assert (length (dict_set (files st) (name p)
                {| file := file kept; filename := filename kept;
                   md5 := Some (sha256 d') |}) = length (files st)) as ->.
      { rewrite <- (length_map fst), <- (length_map fst (files st)).
        by erewrite dict_set_present_keys. }
      lia.
    + revert Hp. unfold process, file_as_bytes. rewrite Hf, Hg, Hr1, Hr2. simpl.
      destruct (decide _); intros [= <-]; simpl; [| done].
      rewrite length_app. simpl. lia.
    + intros q. rewrite Hlog, Hh.
      rewrite (bool_decide_eq_false_2 (Sha256 NewFile p = _)) by done.
      pose proof (first_named_name _ _ _ (eq_sym Hfp)) as Hkn.
      destruct (decide (file kept = q)) as [<-|Hq].
      * rewrite bool_decide_eq_true_2 by done.
        rewrite Hkn, count_named_snoc_eq.
        rewrite (first_named_snoc_Some _ _ _ (file kept)) by done.
        rewrite <- Hfp. rewrite !decide_True by done.
        assert (count_named l (name p) ≠ 0).
        { rewrite <- first_named_None_count. by rewrite <- Hfp. }
        lia.
      * rewrite bool_decide_eq_false_2 by congruence.
        destruct (decide (name p = name q)) as [Hpq|Hpq].
        -- rewrite <- Hpq.
           rewrite (first_named_snoc_Some _ _ _ (file kept)) by done.
           rewrite <- Hfp. rewrite !decide_False by congruence. lia.
        -- rewrite first_named_snoc_ne, count_named_snoc_ne by done. lia.
    + rewrite Htot, Hsk, Ht. lia.
    + rewrite Hfiles. erewrite chosen_set; [| done | done].
      unfold first_seen. rewrite fold_left_app. simpl.
      fold (first_seen l). rewrite <- Hc. unfold note.
      rewrite bool_decide_eq_true_2; [done |].
      rewrite Hkeys. destruct (decide (name p ∈ map fst (files st))); [done |].
      apply dict_get_None in n. congruence.
  - (* first sighting *)
    rewrite (process_first st p Hf Hg) in Hp. injection Hp as <-.
    pose proof (Hfirst (name p)) as Hfp. rewrite Hg in Hfp. simpl in Hfp.
    split; simpl.
    + rewrite map_app. simpl. apply NoDup_app. split; [done |].
      split; [| apply NoDup_singleton].
      intros k Hin ->%list_elem_of_singleton.
      by apply dict_get_None in Hg.
    + intros n. rewrite <- (dict_set_absent _ _ _ Hg), first_named_app. simpl.
      destruct (decide (name p = n)) as [<-|Hne].
      * rewrite dict_get_set_eq. simpl. by rewrite <- Hfp.
      * rewrite dict_get_set_ne by done. rewrite Hfirst.
        by destruct (first_named l n).
    + intros n m. rewrite <- (dict_set_absent _ _ _ Hg).
      destruct (decide (name p = n)) as [<-|Hne].
      * rewrite dict_get_set_eq. by intros [= <-].
      * rewrite dict_get_set_ne by done. apply Hfn.
    + rewrite !length_app. simpl. lia.
    + done.
    + intros q. rewrite Hh.
      destruct (decide (name p = name q)) as [Hpq|Hpq].
      * rewrite <- Hpq, count_named_snoc_eq, first_named_snoc_None by done.
        rewrite <- Hfp.
        assert (count_named l (name p) = 0) as ->.
        { apply first_named_None_count. by rewrite <- Hfp. }
        rewrite decide_False by done. by destruct (decide _).
      * by rewrite first_named_snoc_ne, count_named_snoc_ne.
    + done.
    + unfold first_seen. rewrite fold_left_app. simpl.
      fold (first_seen l). rewrite <- Hc. unfold note.
      rewrite bool_decide_eq_false_2.
      * unfold chosen. by rewrite map_app.
      * rewrite Hkeys. by apply dict_get_None.
Qed.

Lemma scan_scanned l st :
  Forall (λ p, is_file fs p = true) l →
  scan sha256 VERBOSE fs initial l = Ok st → scanned l st.
Proof.
  revert st. induction l as [|p l IH] using rev_ind; intros st Hall.
  - simpl. intros [= <-]. apply scanned_initial.
  - apply Forall_app in Hall as [Hl Hp]. rewrite Forall_singleton in Hp.
    rewrite scan_app.
    destruct (scan sha256 VERBOSE fs initial l) as [st1|e]; simpl; [| done].
    destruct (process sha256 VERBOSE fs st1 p) as [st2|e] eqn:Hstep;
      simpl; [| done].
    intros [= <-]. eapply scanned_step; [apply Hp | by apply IH | done].
Qed.

Lemma scanned_lookup l st n q :
  scanned l st → first_named l n = Some q →
  ∃ m, dict_get (files st) n = Some m ∧ file m = q ∧ filename m = n.
Proof.
  intros Hs Hq. pose proof (scanned_first _ _ Hs n) as H. rewrite Hq in H.
  destruct (dict_get (files st) n) as [m|] eqn:Hm; [| done].
  injection H as H. exists m. split; [done |]. split; [done |].
  by eapply scanned_filename.
Qed.

(** The scan cannot fail when every regular file can be read. *)
Lemma scan_succeeds l :
  Forall (λ p, is_file fs p = true ∧ readable fs p = true) l →
  ∃ st, scan sha256 VERBOSE fs initial l = Ok st.
Proof.
  induction l as [|p l IH] using rev_ind; intros Hall; [by eexists |].
  apply Forall_app in Hall as [Hl Hp]. rewrite Forall_singleton in Hp.
  destruct Hp as [Hpf Hpr]. destruct (IH Hl) as [st1 Hst1].
  rewrite scan_app, Hst1. simpl.
  assert (scanned l st1) as Hs.
  { eapply scan_scanned; [| done]. eapply Forall_impl; [done |]. by intros ? []. }
  unfold process, file_as_bytes. rewrite Hpf. simpl.
  destruct (dict_get (files st1) (name p)) as [kept|] eqn:Hg; [| by eexists].
  destruct (read_bytes_Ok p Hpf Hpr) as (d & -> & _). simpl.
  pose proof (scanned_first _ _ Hs (name p)) as Hfp. rewrite Hg in Hfp.
  symmetry in Hfp. apply first_named_elem_of in Hfp.
  rewrite Forall_forall in Hl. destruct (Hl _ Hfp) as [Hkf Hkr].
  destruct (read_bytes_Ok _ Hkf Hkr) as (d' & -> & _). simpl.
  destruct (decide _); by eexists.
Qed.

(** The scan fails, with an [IOError], as soon as a file that has to be
    hashed cannot be read: the later file of a collision, or the file the
    index holds for that name. *)
Lemma scan_fails l1 p l2 q :
  Forall (λ p, is_file fs p = true) (l1 ++ p :: l2) →
  first_named l1 (name p) = Some q →
  readable fs p = false ∨ readable fs q = false →
  ∃ e, scan sha256 VERBOSE fs initial (l1 ++ p :: l2) = Raise e
       ∧ is_IOError e = true.
Proof.
  intros Hall Hq Hbad. rewrite scan_app.
  apply Forall_app in Hall as [Hl1 Hrest].
  apply Forall_cons in Hrest as [Hpf _].
  destruct (scan sha256 VERBOSE fs initial l1) as [st1|e] eqn:H1; simpl.
  - destruct (scanned_lookup l1 st1 _ _ (scan_scanned _ _ Hl1 H1) Hq)
      as (kept & Hg & Hkq & _).
    assert (∃ e, process sha256 VERBOSE fs st1 p = Raise e) as [e He].
    { unfold process, file_as_bytes. rewrite Hpf, Hg. simpl.
      destruct (read_bytes fs p) as [d|e1] eqn:Hr1; simpl; [| by eexists].
      destruct Hbad as [Hbad|Hbad].
      - destruct (read_bytes_unreadable _ Hbad) as [e He]. congruence.
      - rewrite Hkq. destruct (read_bytes_unreadable _ Hbad) as [e ->].
        by eexists. }
    rewrite He. simpl. exists e. split; [done |]. by eapply process_IOError.
  - exists e. split; [done |]. by eapply scan_IOError.
Qed.

Lemma read_bytes_readable p d : read_bytes fs p = Ok d → readable fs p = true.
Proof.
  unfold read_bytes, readable. by destruct (fs !! p) as [[|x t [|]]|].
Qed.

(** When the scan returns, every file it went through was either read, or
    the first of its name. *)
Lemma scan_Ok_readable l st :
  Forall (λ p, is_file fs p = true) l →
  scan sha256 VERBOSE fs initial l = Ok st →
  ∀ p, p ∈ l → readable fs p = true ∨ first_named l (name p) = Some p.
Proof.
  revert st. induction l as [|p' l IH] using rev_ind; intros st Hall.
  - intros _ p Hp. by apply elem_of_nil in Hp.
  - apply Forall_app in Hall as [Hl Hp']. rewrite Forall_singleton in Hp'.
    rewrite scan_app.
    destruct (scan sha256 VERBOSE fs initial l) as [st1|e] eqn:Hscan;
      simpl; [| done].
    destruct (process sha256 VERBOSE fs st1 p') as [st2|e] eqn:Hstep;
      simpl; [| done].
    intros _ p [Hp|Hp]%elem_of_app.
    + destruct (IH st1 Hl eq_refl p Hp) as [Hr|Hf]; [by left |].
      right. by apply first_named_snoc_Some.
    + apply list_elem_of_singleton in Hp as ->.
      pose proof (scan_scanned l st1 Hl Hscan) as Hs.
      destruct (dict_get (files st1) (name p')) as [kept|] eqn:Hg.
      * left.
        destruct (process_collision st1 p' kept st2 Hp' Hg Hstep)
          as (d & _ & Hr & _).
        by eapply read_bytes_readable.
      * right. apply first_named_snoc_None.
        rewrite <- (scanned_first _ _ Hs). by rewrite Hg.
Qed.

End Scan.

(** ** The copy loop *)

Section Copy.

Variable VERBOSE : bool.
Variable out : path.

Lemma copy_files_log n fs lg i items fs' lg' :
  copy_files VERBOSE out n fs lg i items = (fs', Ok lg') →
  ∀ site q, hash_count site q lg' = hash_count site q lg.
Proof.
  revert fs lg i. induction items as [|[k m] items IH]; intros fs lg i; simpl.
  - by intros [= _ <-].
  - destruct (copy2 fs (file m) (joinpath out (name (file m)))) as [fs1|e];
      [| done].
    intros H site q. rewrite (IH _ _ _ H). by apply hash_count_info.
Qed.

Lemma copy_files_hash_total n fs lg i items fs' lg' :
  copy_files VERBOSE out n fs lg i items = (fs', Ok lg') →
  hash_total lg' = hash_total lg.
Proof.
  revert fs lg i. induction items as [|[k m] items IH]; intros fs lg i; simpl.
  - by intros [= _ <-].
  - destruct (copy2 fs (file m) (joinpath out (name (file m)))) as [fs1|e];
      [| done].
    intros H. rewrite (IH _ _ _ H). by apply hash_total_info.
Qed.

(** Copying an index whose files are readable, lie outside the output
    directory and have distinct base names, into an output directory that
    holds no sub-directory: every copy succeeds, each record's file lands
    under its base name, and nothing else changes. *)
Lemma copy_files_ok n fs lg i items :
  fs !! out = Some Dir →
  (∀ k, is_dir fs (joinpath out k) = false) →
  NoDup (map (λ kv, name (file kv.2)) items) →
  (∀ k m, (k, m) ∈ items →
     (∃ d t, fs !! file m = Some (File d t true))
     ∧ ∀ k', file m ≠ joinpath out k') →
  ∃ fs' lg',
    copy_files VERBOSE out n fs lg i items = (fs', Ok lg') ∧
    (∀ k m, (k, m) ∈ items →
       ∃ d t, fs !! file m = Some (File d t true)
              ∧ fs' !! joinpath out (name (file m)) = Some (File d t true)) ∧
    (∀ q, (∀ k m, (k, m) ∈ items → q ≠ joinpath out (name (file m))) →
       fs' !! q = fs !! q).
Proof.
  revert fs lg i.
  induction items as [|[k m] items IH]; intros fs lg i Hout Hnd Hnames Hsrc.
  - exists fs, lg. split; [done |]. split; [| done].
    intros ? ? H. by apply elem_of_nil in H.
  - simpl in Hnames. apply NoDup_cons in Hnames as [Hfresh Hnames].
    destruct (Hsrc k m) as [(d & t & Hm) Hmo]; [apply elem_of_cons; by left |].
    simpl. set (dst := joinpath out (name (file m))).
    assert (copy2 fs (file m) dst = Ok (<[dst := File d t true]> fs)) as ->.
    { apply copy2_file; [done | apply Hmo | apply Hnd |].
      unfold dst. by rewrite parent_joinpath. }
    set (fs1 := <[dst := File d t true]> fs).
    assert (Hkeep : ∀ k' m', (k', m') ∈ items →
              fs1 !! file m' = fs !! file m').
    { intros k' m' Hin. apply lookup_insert_ne. intros Heq.
      destruct (Hsrc k' m') as [_ Ho]; [apply elem_of_cons; by right |].
      by apply (Ho (name (file m))). }
    destruct (IH fs1 (info VERBOSE
                (InfoCopied (file m) dst (S i) n) lg) (S i))
      as (fs' & lg' & Hrun & Hin & Hother).
    + unfold fs1. rewrite lookup_insert_ne by apply joinpath_ne. done.
    + intros k'. unfold is_dir, fs1.
      destruct (decide (dst = joinpath out k')) as [<-|Hne].
      * by rewrite lookup_insert_eq.
      * rewrite lookup_insert_ne by done. apply Hnd.
    + done.
    + intros k' m' Hkm. rewrite (Hkeep k' m' Hkm).
      apply (Hsrc k'). apply elem_of_cons. by right.
    + exists fs', lg'. split; [done |]. split.
      * intros k' m' [Heq|Hkm]%elem_of_cons.
        -- injection Heq as -> ->. exists d, t. split; [done |].
           rewrite Hother; [apply lookup_insert_eq |].
           intros k2 m2 Hkm Heq%joinpath_inj. apply Hfresh.
           apply (list_elem_of_fmap_2' (λ kv, name (file kv.2)) _ (k2, m2));
             [done | by simpl].
        -- destruct (Hin k' m' Hkm) as (d' & t' & H1 & H2).
           exists d', t'. split; [| done]. by rewrite <- (Hkeep k' m' Hkm).
      * intros q Hq. rewrite Hother.
        -- apply lookup_insert_ne. intros <-.
           apply (Hq k m); [apply elem_of_cons; by left | done].
        -- intros k' m' Hkm. apply (Hq k'). apply elem_of_cons. by right.
Qed.

(** When the copy loop returns, every file of the index could be read. *)
Lemma copy_files_Ok_readable n fs lg i items fs' lg' :
  (∀ k, is_dir fs (joinpath out k) = false) →
  (∀ k m, (k, m) ∈ items → ∀ k', file m ≠ joinpath out k') →
  copy_files VERBOSE out n fs lg i items = (fs', Ok lg') →
  ∀ k m, (k, m) ∈ items → readable fs (file m) = true.
Proof.
  revert fs lg i. induction items as [|[k0 m0] items IH]; intros fs lg i Hnd Hsrc.
  - intros _ k m H. by apply elem_of_nil in H.
  - simpl. set (dst := joinpath out (name (file m0))).
    destruct (copy2 fs (file m0) dst) as [fs1|e] eqn:Hcp; [| done].
    intros Hrest k m Hkm.
    apply copy2_Ok in Hcp as (d & t & q & Hq & Hsrc0 & _ & _ & ->).
    rewrite (Hnd (name (file m0)) : is_dir fs dst = false) in Hq. subst q.
    apply elem_of_cons in Hkm as [Heq|Hkm].
    { injection Heq as -> ->. unfold readable. by rewrite Hsrc0. }
    assert (readable (<[dst := File d t true]> fs) (file m) = true) as Hr.
    { eapply IH; [| | exact Hrest | exact Hkm].
      - intros k'. unfold is_dir.
        destruct (decide (dst = joinpath out k')) as [<-|Hne].
        + by rewrite lookup_insert_eq.
        + rewrite lookup_insert_ne by done. apply Hnd.
      - intros k' m' Hkm'. apply (Hsrc k'). apply elem_of_cons. by right. }
    unfold readable in *. rewrite lookup_insert_ne in Hr; [done |].
    intros Heq. symmetry in Heq. revert Heq.
    apply (Hsrc k). apply elem_of_cons. by right.
Qed.


End Copy.

(** ** The whole run *)

Section Main.

Variable sha256 : bytes → bytes.

Lemma candidates_regular fs a :
  Forall (λ p, is_file fs p = true) (candidates fs a).
Proof.
  apply Forall_forall. intros p Hp. unfold candidates in Hp.
  apply list_elem_of_In, List.filter_In in Hp. tauto.
Qed.

Lemma build_candidates a fs :
  build sha256 (verbose a) fs (dot_ext a) initial (sources a) =
  scan sha256 (verbose a) fs initial (candidates fs a).
Proof. rewrite build_scan. apply scan_regular. Qed.

(** A run that returns went through its three phases. *)
Lemma main_Ok a fs fs' st :
  main sha256 a fs = (fs', Ok st) →
  ∃ st0 fs1 lg,
    scan sha256 (verbose a) fs initial (candidates fs a) = Ok st0 ∧
    mkdir fs (out a) = Ok fs1 ∧
    copy_files (verbose a) (out a) (length (files st0)) fs1 (log st0) 0
      (files st0) = (fs', Ok lg) ∧
    files st = files st0 ∧ conflicts st = conflicts st0 ∧
    skip_count st = skip_count st0 ∧ conflict_count st = conflict_count st0 ∧
    log st = lg ++ [Summary (length (files st0)) (length (sources a))
                      (skip_count st0) (conflict_count st0)].
Proof.
  unfold main. rewrite build_candidates.
  destruct (scan sha256 (verbose a) fs initial (candidates fs a)) as [st0|e];
    [| done].
  destruct (mkdir fs (out a)) as [fs1|e]; [| done].
  destruct (copy_files _ _ _ _ _ _ _) as [fs2 [lg|e]] eqn:Hc; [| done].
  intros [= <- <-]. exists st0, fs1, lg. by simpl.
Qed.

(** With readable files and a fresh output directory the run returns; the
    index holds the first file seen under each name, and the output
    directory holds a copy of exactly those files. *)
Lemma main_run a fs :
  Forall (λ p, readable fs p = true) (candidates fs a) →
  fresh fs (out a) →
  ∃ fs' st,
    main sha256 a fs = (fs', Ok st)
    ∧ chosen (files st) = first_seen (candidates fs a)
    ∧ NoDup (map fst (files st))
    ∧ (∀ n, file <$> dict_get (files st) n = first_named (candidates fs a) n)
    ∧ fs' !! out a = Some Dir
    ∧ (∀ n, contents fs' (joinpath (out a) n) =
            first_named (candidates fs a) n ≫= contents fs)
    ∧ (∀ q, q ≠ out a → (∀ n, q ≠ joinpath (out a) n) → fs' !! q = fs !! q).
Proof.
  intros Hread [Hout Hempty].
  set (l := candidates fs a) in *.
  pose proof (candidates_regular fs a) as Hreg. fold l in Hreg.
  assert (Hboth : Forall (λ p, is_file fs p = true ∧ readable fs p = true) l).
  { rewrite Forall_forall in *. intros p Hp. split; [by apply Hreg | by apply Hread]. }
  destruct (scan_succeeds sha256 (verbose a) fs l Hboth) as [st0 Hscan].
  pose proof (scan_scanned sha256 (verbose a) fs l st0 Hreg Hscan) as Hs.
  (* the output directory *)
  assert (∃ fs1, mkdir fs (out a) = Ok fs1 ∧ fs1 !! out a = Some Dir
                 ∧ ∀ q, q ≠ out a → fs1 !! q = fs !! q)
    as (fs1 & Hmk & Hdir & Hsame).
  { destruct Hout as [Hd|[Hn Hp]].
    - exists fs. by rewrite mkdir_existing.
    - exists (<[out a := Dir]> fs). rewrite mkdir_absent by done.
      split; [done |]. split; [apply lookup_insert_eq |].
      intros q Hq. by apply lookup_insert_ne. }
  (* every record of the index *)
  assert (Hrec : ∀ k m, (k, m) ∈ files st0 →
            name (file m) = k ∧ first_named l k = Some (file m)
            ∧ (∃ d t, fs !! file m = Some (File d t true))
            ∧ file m ≠ out a ∧ ∀ k', file m ≠ joinpath (out a) k').
  { intros k m Hkm.
    pose proof (dict_elem_of_get _ _ _ (scanned_keys _ _ Hs) Hkm) as Hg.
    pose proof (scanned_first _ _ Hs k) as Hf. rewrite Hg in Hf.
    simpl in Hf. symmetry in Hf.
    pose proof (first_named_elem_of _ _ _ Hf) as Hin.
    rewrite Forall_forall in Hboth. destruct (Hboth _ Hin) as [Hfile Hr].
    unfold is_file, readable in Hfile, Hr.
    destruct (fs !! file m) as [[|d t r]|] eqn:Hm; try done. subst r.
    split; [by eapply first_named_name |]. split; [done |].
    split; [by eauto |]. split.
    - intros Heq. rewrite Heq in Hm. destruct Hout as [?|[? _]]; congruence.
    - intros k' Heq. rewrite Heq, Hempty in Hm. done. }
  destruct (copy_files_ok (verbose a) (out a) (length (files st0)) fs1
              (log st0) 0 (files st0)) as (fs' & lg & Hcopy & Hin & Hother).
  { done. }
  { intros k. unfold is_dir.
    rewrite Hsame by apply joinpath_ne. by rewrite Hempty. }
  { assert (map (λ kv : string * metadata, name (file kv.2)) (files st0)
            = map fst (files st0)) as ->.
    { apply map_ext_in. intros [k m] Hkm%list_elem_of_In. simpl.
      by destruct (Hrec k m Hkm). }
    apply (scanned_keys _ _ Hs). }
  { intros k m Hkm. destruct (Hrec k m Hkm) as (_ & _ & Hex & Hno & Hnj).
    split; [| done]. by rewrite Hsame. }
  eexists fs', _. split.
  { unfold main. rewrite build_candidates. fold l. rewrite Hscan, Hmk, Hcopy.
    reflexivity. }
  simpl. split; [apply (scanned_chosen _ _ Hs) |].
  split; [apply (scanned_keys _ _ Hs) |].
  split; [apply (scanned_first _ _ Hs) |].
  split; [| split].
  - rewrite Hother; [done |]. intros k m _ Heq. symmetry in Heq.
    by apply joinpath_ne in Heq.
  - intros n. destruct (first_named l n) as [p|] eqn:Hp; simpl.
    + destruct (scanned_lookup _ _ _ _ Hs Hp) as (m & Hg & <- & _).
      apply dict_get_elem_of in Hg.
      destruct (Hrec n m Hg) as (Hname & _ & _ & Hno & _).
      destruct (Hin n m Hg) as (d & t & H1 & H2).
      rewrite Hname in H2. unfold contents. rewrite H2.
      rewrite Hsame in H1 by done. by rewrite H1.
    + unfold contents. rewrite Hother.
      * rewrite Hsame by apply joinpath_ne. by rewrite Hempty.
      * intros k m Hkm Heq%joinpath_inj.
        destruct (Hrec k m Hkm) as (Hname & Hf & _). congruence.
  - intros q Hq Hqn. rewrite Hother; [by apply Hsame |].
    intros k m _. apply Hqn.
Qed.

(** A run into a fresh output directory returns only if every regular file
    of the enumeration can be read: each is hashed or copied. *)
Lemma main_Ok_readable a fs fs' st :
  fresh fs (out a) → main sha256 a fs = (fs', Ok st) →
  Forall (λ p, readable fs p = true) (candidates fs a).
Proof.
  intros [Hout Hempty] (st0 & fs1 & lg & Hscan & Hmk & Hcopy & _)%main_Ok.
  pose proof (candidates_regular fs a) as Hreg.
  pose proof (scan_scanned _ _ _ _ _ Hreg Hscan) as Hs.
  apply Forall_forall. intros p Hp.
  destruct (scan_Ok_readable _ _ _ _ _ Hreg Hscan p Hp) as [Hr|Hfirst];
    [done |].
  destruct (scanned_lookup _ _ _ _ Hs Hfirst) as (m & Hg & Hm & _).
  apply dict_get_elem_of in Hg.
  assert (Hsame : ∀ q, q ≠ out a → fs1 !! q = fs !! q).
  { intros q Hq. apply mkdir_Ok in Hmk as [_ [[_ ->]|[_ ->]]]; [done |].
    by apply lookup_insert_ne. }
  assert (Hfile : ∀ q, is_file fs q = true →
            q ≠ out a ∧ ∀ k, q ≠ joinpath (out a) k).
  { intros q Hq. unfold is_file in Hq. split.
    - intros ->. destruct Hout as [H|[H _]]; by rewrite H in Hq.
    - intros k ->. by rewrite Hempty in Hq. }
  assert (readable fs1 (file m) = true) as Hr.
  { eapply (copy_files_Ok_readable _ _ _ _ _ _ _ _ _); [| | exact Hcopy | exact Hg].
    - intros k. unfold is_dir. rewrite Hsame by apply joinpath_ne.
      by rewrite Hempty.
    - intros k0 m0 Hkm0.
      pose proof (dict_elem_of_get _ _ _ (scanned_keys _ _ Hs) Hkm0) as Hg0.
      pose proof (scanned_first _ _ Hs k0) as Hf0. rewrite Hg0 in Hf0.
      symmetry in Hf0. apply first_named_elem_of in Hf0.
      rewrite Forall_forall in Hreg. apply Hfile. by apply Hreg. }
  rewrite Hm in Hr. unfold readable in *. rewrite Hsame in Hr; [done |].
  rewrite Forall_forall in Hreg. by apply Hfile, Hreg.
Qed.

(** C1: take any run into a fresh output directory.  It returns exactly
    when every enumerated regular file can be read; and whenever it
    returns, the output directory holds, under each base name, the bytes of
    the first regular file enumerated with that name (sources in the order
    given, each in its enumeration order) and nothing under any other name,
    while the index keeps one record per name, that of the first file seen,
    whatever came later. *)
Theorem first_seen_wins a fs :
  fresh fs (out a) →
  ((∃ fs' st, main sha256 a fs = (fs', Ok st))
   ↔ Forall (λ p, readable fs p = true) (candidates fs a))
  ∧ ∀ fs' st,
      main sha256 a fs = (fs', Ok st) →
      (∀ n, contents fs' (joinpath (out a) n) =
            first_named (candidates fs a) n ≫= contents fs)
      ∧ (∀ n, is_file fs' (joinpath (out a) n) = true
              ↔ ∃ p, p ∈ candidates fs a ∧ name p = n)
      ∧ NoDup (map fst (files st))
      ∧ chosen (files st) = first_seen (candidates fs a)
      ∧ (∀ n, file <$> dict_get (files st) n =
              first_named (candidates fs a) n).
Proof.
  intros Hfresh. split.
  { split.
    - intros (fs' & st & Hrun). by eapply main_Ok_readable.
    - intros Hread.
      destruct (main_run a fs Hread Hfresh) as (fs' & st & Hrun & _).
      by exists fs', st. }
  intros fs1 st1 Hrun1.
  pose proof (main_Ok_readable a fs fs1 st1 Hfresh Hrun1) as Hread.
  destruct (main_run a fs Hread Hfresh)
    as (fs' & st & Hmain & Hch & Hnd & Hidx & Hdir & Hcont & Hother).
  rewrite Hrun1 in Hmain. injection Hmain as <- <-.
  split; [done |]. split; [| by split].
  intros n. rewrite <- first_named_is_Some.
  pose proof (Hcont n) as Hn. unfold contents in Hn. unfold is_file.
  destruct (first_named (candidates fs a) n) as [p|] eqn:Hp; simpl in Hn.
  - pose proof (candidates_regular fs a) as Hreg.
    rewrite Forall_forall in Hreg.
    pose proof (Hreg _ (first_named_elem_of _ _ _ Hp)) as Hf.
    unfold is_file in Hf.
    destruct (fs !! p) as [[|d t r]|]; try done.
    destruct (fs1 !! joinpath (out a) n) as [[|d' t' r']|]; done.
  - destruct (fs1 !! joinpath (out a) n) as [[|d' t' r']|]; try done;
      (split; [done | by intros [? ?]]).
Qed.

(** C2: one collision.  The new file [p] meets the record [kept] of its
    base name and both files can be read.  The skip counter moves by one
    whatever the digests; the index keeps its keys and the file of every
    record (only the digest of [kept] is stored in its record); with equal
    digests the conflict counter and the conflict list are unchanged and no
    warning is printed; with different digests the conflict counter moves
    by one, one conflict record naming the kept path and [p] is appended,
    and the warning names both. *)
Theorem collision_outcome V fs st p kept d d' :
  is_file fs p = true →
  dict_get (files st) (name p) = Some kept →
  read_bytes fs p = Ok d →
  read_bytes fs (file kept) = Ok d' →
  ∃ st',
    process sha256 V fs st p = Ok st'
    ∧ skip_count st' = S (skip_count st)
    ∧ chosen (files st') = chosen (files st)
    ∧ file <$> dict_get (files st') (name p) = Some (file kept)
    ∧ files st' = dict_set (files st) (name p)
                    {| file := file kept; filename := filename kept;
                       md5 := Some (sha256 d') |}
    ∧ (sha256 d' = sha256 d →
         conflict_count st' = conflict_count st
         ∧ conflicts st' = conflicts st
         ∧ ∀ x y, Warning x y ∈ log st' → Warning x y ∈ log st)
    ∧ (sha256 d' ≠ sha256 d →
         conflict_count st' = S (conflict_count st)
         ∧ (∃ r1 r2, conflicts st' = conflicts st ++ [(r1, r2)]
                     ∧ file r1 = file kept ∧ file r2 = p)
         ∧ Warning (file kept) p ∈ log st').
Proof.
  intros Hf Hg Hr1 Hr2. unfold process, file_as_bytes. rewrite Hf, Hg, Hr1, Hr2. simpl.
  set (kept' := {| file := file kept; filename := filename kept;
                   md5 := Some (sha256 d') |}).
  assert (Hch : chosen (dict_set (files st) (name p) kept') = chosen (files st))
    by by eapply chosen_set.
  destruct (decide (Some (sha256 d') ≠ Some (sha256 d))) as [Hne|Heq];
    eexists; (split; [reflexivity |]); simpl;
    (split; [done |]); (split; [done |]);
    (split; [by rewrite dict_get_set_eq |]); (split; [done |]).
  - split; [intros Heq; by rewrite Heq in Hne |].
    intros _. split; [done |]. split; [by eexists _, _ |].
    apply elem_of_app. right. by apply list_elem_of_singleton.
  - split; [| intros Hne; destruct Heq; congruence].
    intros _. split; [done |]. split; [done |].
    intros x y. destruct V; simpl.
    + rewrite !elem_of_app, !list_elem_of_singleton.
      intros [[[? | ?] | ?] | ?]; done.
    + rewrite !elem_of_app, !list_elem_of_singleton.
      intros [[? | ?] | ?]; done.
Qed.

(** C3, as the code has it: nothing is hashed when a file is first seen
    (two digests per collision are all the digests of a run), and the file
    of a record is hashed once for every collision on its name: a name
    enumerated [k + 1] times has its file hashed [k] times.  The digest
    stored in the record is overwritten each time and never read back. *)
Theorem hashed_at_every_collision a fs fs' st :
  main sha256 a fs = (fs', Ok st) →
  (∀ n m, dict_get (files st) n = Some m →
     hash_count IndexRecord (file m) (log st) =
     pred (count_named (candidates fs a) n))
  ∧ hash_total (log st) = 2 * skip_count st
  ∧ skip_count st + length (files st) = length (candidates fs a).
Proof.
  intros (st0 & fs1 & lg & Hscan & _ & Hcopy & Hfiles & _ & Hskip & _ & Hlog)
    %main_Ok.
  pose proof (scan_scanned _ _ _ _ _ (candidates_regular fs a) Hscan) as Hs.
  split; [| split].
  - intros n m Hg. rewrite Hfiles in Hg.
    rewrite Hlog, hash_count_app, (copy_files_log _ _ _ _ _ _ _ _ _ Hcopy).
    rewrite (scanned_hashes _ _ Hs).
    pose proof (scanned_first _ _ Hs n) as Hf. rewrite Hg in Hf. simpl in Hf.
    symmetry in Hf. rewrite (first_named_name _ _ _ Hf), Hf.
    rewrite decide_True by done. unfold hash_count. simpl. lia.
  - rewrite Hlog, hash_total_app, (copy_files_hash_total _ _ _ _ _ _ _ _ _ Hcopy).
    rewrite (scanned_hash_total _ _ Hs), Hskip. unfold hash_total. simpl. lia.
  - rewrite Hfiles, Hskip. apply (scanned_skip _ _ Hs).
Qed.

(** C4: when a file that has to be hashed cannot be read (the later file
    [p] of a collision, or the file [q] the index holds under that name),
    the run raises an [IOError] and the file system is as it was: nothing
    has been copied and the output directory has not even been made. *)
Theorem unreadable_file_aborts a fs l1 p l2 q :
  candidates fs a = l1 ++ p :: l2 →
  first_named l1 (name p) = Some q →
  readable fs p = false ∨ readable fs q = false →
  ∃ e, main sha256 a fs = (fs, Raise e) ∧ is_IOError e = true.
Proof.
  intros Hl Hq Hbad.
  pose proof (candidates_regular fs a) as Hreg. rewrite Hl in Hreg.
  destruct (scan_fails sha256 (verbose a) fs l1 p l2 q Hreg Hq Hbad)
    as (e & He & Hio).
  exists e. split; [| done].
  unfold main. by rewrite build_candidates, Hl, He.
Qed.

(** C6: two runs whose sources enumerate the same regular files in the same
    order, with the same contents, each into a fresh output directory, both
    return and leave the same bytes under every name of their output
    directories. *)
Theorem same_inputs_same_output a1 fs1 a2 fs2 :
  candidates fs1 a1 = candidates fs2 a2 →
  Forall (λ p, contents fs1 p = contents fs2 p) (candidates fs1 a1) →
  Forall (λ p, readable fs1 p = true) (candidates fs1 a1) →
  Forall (λ p, readable fs2 p = true) (candidates fs2 a2) →
  fresh fs1 (out a1) → fresh fs2 (out a2) →
  ∃ fs1' st1 fs2' st2,
    main sha256 a1 fs1 = (fs1', Ok st1)
    ∧ main sha256 a2 fs2 = (fs2', Ok st2)
    ∧ (∀ n, contents fs1' (joinpath (out a1) n) =
            contents fs2' (joinpath (out a2) n))
    ∧ chosen (files st1) = chosen (files st2).
Proof.
  intros Hsame Hbytes Hr1 Hr2 Hf1 Hf2.
  destruct (main_run a1 fs1 Hr1 Hf1)
    as (fs1' & st1 & Hm1 & Hc1 & _ & _ & _ & Ho1 & _).
  destruct (main_run a2 fs2 Hr2 Hf2)
    as (fs2' & st2 & Hm2 & Hc2 & _ & _ & _ & Ho2 & _).
  exists fs1', st1, fs2', st2. split; [done |]. split; [done |].
  split; [| by rewrite Hc1, Hc2, Hsame].
  intros n. rewrite Ho1, Ho2, <- Hsame.
  destruct (first_named (candidates fs1 a1) n) as [p|] eqn:Hp; [| done].
  simpl. rewrite Forall_forall in Hbytes. apply Hbytes.
  by eapply first_named_elem_of.
Qed.

(** C8, as the code has it: sources are not validated.  A source that is
    not a directory (a missing one, say) yields no entry at all, and the run
    goes on as if it had not been listed: same final file system, same
    index, conflicts and counters, or the same exception. *)
Theorem untraversable_source_is_skipped a fs l1 src l2 :
  is_dir fs src = false →
  glob fs src (dot_ext a) = []
  ∧ candidates fs (with_sources a (l1 ++ src :: l2)) =
    candidates fs (with_sources a (l1 ++ l2))
  ∧ (main sha256 (with_sources a (l1 ++ src :: l2)) fs).1 =
    (main sha256 (with_sources a (l1 ++ l2)) fs).1
  ∧ same_outcome (main sha256 (with_sources a (l1 ++ src :: l2)) fs).2
                 (main sha256 (with_sources a (l1 ++ l2)) fs).2.
Proof.
  intros Hd.
  assert (Hg : glob fs src (dot_ext a) = []) by (unfold glob; by rewrite Hd).
  assert (Hc : candidates fs (with_sources a (l1 ++ src :: l2)) =
               candidates fs (with_sources a (l1 ++ l2))).
  { unfold candidates, enumerated, with_sources, dot_ext in *. simpl.
    rewrite !map_app, !concat_app. simpl. by rewrite Hg. }
  split; [done |]. split; [done |].
  unfold main. rewrite !build_candidates, Hc. simpl.
  destruct (scan _ _ _ _ _) as [st0|e]; simpl; [| done].
  destruct (mkdir fs (out a)) as [fs1|e]; simpl; [| done].
  destruct (copy_files _ _ _ _ _ _ _) as [fs2 [lg|e]]; simpl; done.
Qed.


End Main.

(** ** The theorems at work on the sample tree *)

Import Examples.

Lemma tree_fresh : fresh tree ["o"].
Proof.
  split; [right; split; vm_compute; reflexivity |].
  apply emptyb_empty. vm_compute. reflexivity.
Qed.

Lemma tree_again_fresh : fresh tree_again ["p"].
Proof.
  split; [right; split; vm_compute; reflexivity |].
  apply emptyb_empty. vm_compute. reflexivity.
Qed.

Lemma tree_candidates :
  candidates tree dedup_args =
  [["a"; "x.txt"]; ["b"; "x.txt"]; ["c"; "y.txt"]; ["c"; "x.txt"]].
Proof. vm_compute. reflexivity. Qed.

Lemma tree_run :
  main plain_digest dedup_args tree = (tree_merged, Ok merged_state).
Proof. by_evaluation. Qed.

Lemma first_seen_wins_witness :
  fresh tree (out dedup_args)
  ∧ main plain_digest dedup_args tree = (tree_merged, Ok merged_state)
  ∧ (∀ n, contents tree_merged (joinpath (out dedup_args) n) =
          first_named (candidates tree dedup_args) n ≫= contents tree)
  ∧ chosen (files merged_state) = first_seen (candidates tree dedup_args).
Proof.
  destruct (first_seen_wins plain_digest dedup_args tree tree_fresh)
    as [_ Hrun].
  destruct (Hrun tree_merged merged_state tree_run)
    as (Hbytes & _ & _ & Hchosen & _).
  split; [exact tree_fresh |]. split; [exact tree_run |].
  split; [exact Hbytes | exact Hchosen].
Defined.

Lemma collision_outcome_witness :
  ∃ st',
    process plain_digest false tree after_first ["b"; "x.txt"] = Ok st'
    ∧ skip_count st' = 1
    ∧ chosen (files st') = [("x.txt", ["a"; "x.txt"])]
    ∧ conflict_count st' = 1
    ∧ Warning ["a"; "x.txt"] ["b"; "x.txt"] ∈ log st'.
Proof.
  destruct (collision_outcome plain_digest false tree after_first
              ["b"; "x.txt"]
              {| file := ["a"; "x.txt"]; filename := "x.txt"; md5 := None |}
              bytes_B bytes_A)
    as (st' & Hrun & Hskip & Hch & _ & _ & _ & Hdiff);
    [vm_compute; reflexivity | reflexivity | vm_compute; reflexivity
    | vm_compute; reflexivity |].
  exists st'. split; [done |]. split; [done |]. split; [done |].
  destruct Hdiff as (Hc & _ & Hw); [discriminate |]. by split.
Defined.

Lemma hashed_at_every_collision_witness :
  (∀ n m, dict_get (files merged_state) n = Some m →
     hash_count IndexRecord (file m) (log merged_state) =
     pred (count_named (candidates tree dedup_args) n))
  ∧ hash_total (log merged_state) = 2 * skip_count merged_state
  ∧ skip_count merged_state + length (files merged_state) =
    length (candidates tree dedup_args).
Proof.
  apply (hashed_at_every_collision plain_digest dedup_args tree
           tree_merged merged_state tree_run).
Defined.

Lemma unreadable_file_aborts_witness :
  ∃ e, main plain_digest dedup_args locked_tree = (locked_tree, Raise e)
       ∧ is_IOError e = true.
Proof.
  apply (unreadable_file_aborts plain_digest dedup_args locked_tree
           [["a"; "x.txt"]; ["b"; "x.txt"]; ["c"; "y.txt"]]
           ["c"; "x.txt"] [] ["a"; "x.txt"]).
  - vm_compute. reflexivity.
  - reflexivity.
  - left. vm_compute. reflexivity.
Defined.

Lemma same_inputs_same_output_witness :
  ∃ fs1' st1 fs2' st2,
    main plain_digest dedup_args tree = (fs1', Ok st1)
    ∧ main plain_digest
        {| sources := [["a"]; ["b"]; ["c"]]; out := ["p"];
           ext := None; verbose := true |} tree_again = (fs2', Ok st2)
    ∧ (∀ n, contents fs1' (joinpath ["o"] n) =
            contents fs2' (joinpath ["p"] n))
    ∧ chosen (files st1) = chosen (files st2).
Proof.
  assert (candidates tree_again
            {| sources := [["a"]; ["b"]; ["c"]]; out := ["p"];
               ext := None; verbose := true |} =
          [["a"; "x.txt"]; ["b"; "x.txt"]; ["c"; "y.txt"]; ["c"; "x.txt"]])
    as Hagain by (vm_compute; reflexivity).
  apply (same_inputs_same_output plain_digest dedup_args tree
           {| sources := [["a"]; ["b"]; ["c"]]; out := ["p"];
              ext := None; verbose := true |} tree_again).
  - by rewrite tree_candidates, Hagain.
  - rewrite tree_candidates.
    repeat constructor; vm_compute; reflexivity.
  - rewrite tree_candidates. repeat constructor.
  - rewrite Hagain. repeat constructor.
  - apply tree_fresh.
  - apply tree_again_fresh.
Defined.

Lemma untraversable_source_is_skipped_witness :
  glob tree ["zz"] "" = []
  ∧ same_outcome
      (main plain_digest (with_sources dedup_args [["a"]; ["zz"]; ["b"]])
         tree).2
      (main plain_digest (with_sources dedup_args [["a"]; ["b"]]) tree).2.
Proof.
  destruct (untraversable_source_is_skipped plain_digest dedup_args tree
              [["a"]] ["zz"] [["b"]]) as (Hg & _ & _ & Hsame);
    [vm_compute; reflexivity |].
  by split.
Defined.

(** C3 as stated fails: [x.txt] is enumerated three times, and the file of
    its record, [/a/x.txt], is hashed at both collisions. *)
Lemma record_hashed_twice :
  main plain_digest dedup_args tree = (tree_merged, Ok merged_state)
  ∧ dict_get (files merged_state) "x.txt" = Some kept_x
  ∧ hash_count IndexRecord (file kept_x) (log merged_state) = 2
  ∧ ¬ hash_count IndexRecord (file kept_x) (log merged_state) ≤ 1.
Proof.
  split; [apply tree_run |]. split; [reflexivity |].
  assert (hash_count IndexRecord (file kept_x) (log merged_state) = 2) as ->
    by (vm_compute; reflexivity).
  split; [reflexivity | lia].
Qed.

(** C8 as stated fails: [/zz] does not exist, and the run given it as a
    source returns, with [x.txt] copied from [/a]. *)
Lemma missing_source_run_returns :
  tree !! ["zz"] = None
  ∧ main plain_digest (with_sources dedup_args [["a"]; ["zz"]]) tree =
    (<[["o"; "x.txt"] := File bytes_A 10 true]> (<[["o"] := Dir]> tree),
     Ok {| skip_count := 0; conflict_count := 0; conflicts := [];
           files := [("x.txt", {| file := ["a"; "x.txt"];
                                  filename := "x.txt"; md5 := None |})];
           log := [Summary 1 2 0 0] |}).
Proof.
  split; [vm_compute; reflexivity | by_evaluation].
Qed.

End DedupFacts.

(* ===================================================================== *)
(** * Properties of sortfile.py                                          *)
(* ===================================================================== *)

Module SortfileFacts.
Import FS FSFacts Sortfile.

Section Facts.

Variable utcoffset : Z → Z.
Variable platform_directive : ascii → datetime → string.

Local Abbreviation strftime := (strftime platform_directive).
Local Abbreviation fromtimestamp := (fromtimestamp utcoffset).
Local Abbreviation destination := (destination utcoffset platform_directive).
Local Abbreviation sort_step := (sort_step utcoffset platform_directive).
Local Abbreviation sort_loop := (sort_loop utcoffset platform_directive).
Local Abbreviation main := (main utcoffset platform_directive).

Lemma strftime_literal s rest dt :
  percent_free s = true →
  strftime (s +:+ rest) dt = s +:+ strftime rest dt.
Proof.
  induction s as [|c s IH]; simpl; [done |].
  intros [Hc Hs]%andb_prop. apply negb_true_iff, bool_decide_eq_false in Hc.
  rewrite decide_False by done. by rewrite IH.
Qed.

Lemma strftime_Y rest dt :
  strftime ("%Y" +:+ rest) dt = decimal (year dt) +:+ strftime rest dt.
Proof. reflexivity. Qed.

Lemma strftime_m rest dt :
  strftime ("%m" +:+ rest) dt = pad2 (month dt) +:+ strftime rest dt.
Proof. reflexivity. Qed.

Lemma strftime_d rest dt :
  strftime ("%d" +:+ rest) dt = pad2 (day dt) +:+ strftime rest dt.
Proof. reflexivity. Qed.

Lemma sort_step_IOError V datestr dst fs st p fs' e :
  sort_step V datestr dst fs st p = (fs', Raise e) → is_IOError e = true.
Proof.
  unfold Sortfile.sort_step. destruct (negb (is_file fs p)); [done |].
  destruct (st_mtime fs p) as [t|e1] eqn:Ht.
  - destruct (makedirs fs _) as [fs1|e1] eqn:Hmk.
    + destruct (copy2 fs1 p _) as [fs2|e2] eqn:Hcp; [done |].
      intros [= _ <-]. by eapply copy2_IOError.
    + intros [= _ <-]. by eapply makedirs_IOError.
  - intros [= _ <-]. by eapply st_mtime_IOError.
Qed.

Lemma sort_loop_IOError V datestr dst fs st l fs' e :
  sort_loop V datestr dst fs st l = (fs', Raise e) → is_IOError e = true.
Proof.
  revert fs st. induction l as [|p l IH]; intros fs st; simpl; [done |].
  destruct (sort_step V datestr dst fs st p) as [fs1 [st1|e1]] eqn:Hstep.
  - apply IH.
  - intros [= _ <-]. by eapply sort_step_IOError.
Qed.

Lemma sort_loop_app V datestr dst fs st l1 l2 :
  sort_loop V datestr dst fs st (l1 ++ l2) =
  match sort_loop V datestr dst fs st l1 with
  | (fs', Ok st') => sort_loop V datestr dst fs' st' l2
  | (fs', Raise e) => (fs', Raise e)
  end.
Proof.
  revert fs st. induction l1 as [|p l1 IH]; intros fs st; simpl; [done |].
  destruct (sort_step V datestr dst fs st p) as [fs1 [st1|e1]]; [apply IH | done].
Qed.

(** What a step leaves behind when it returns. *)
Lemma sort_step_Ok V datestr dst fs st p fs' st' :
  sort_step V datestr dst fs st p = (fs', Ok st') →
  (wf fs → wf fs') ∧ (∀ q, is_file fs q = true → is_file fs' q = true)
  ∧ (∀ q, fs !! q = Some Dir → fs' !! q = Some Dir).
Proof.
  unfold Sortfile.sort_step. destruct (negb (is_file fs p)).
  { by intros [= <- <-]. }
  destruct (st_mtime fs p) as [t|e1]; [| done].
  destruct (makedirs fs _) as [fs1|e1] eqn:Hmk; [| done].
  destruct (copy2 fs1 p _) as [fs2|e2] eqn:Hcp; [| done].
  intros [= <- <-]. split; [| split].
  - intros Hwf. eapply copy2_wf; [| done]. by eapply makedirs_wf.
  - intros q Hq. eapply copy2_is_file; [done |].
    unfold is_file in *. destruct (fs !! q) as [[|d t' r]|] eqn:Hfq; try done.
    by rewrite (makedirs_preserves _ _ _ _ _ Hmk Hfq).
  - intros q Hq. eapply copy2_dir; [done |]. by eapply makedirs_preserves.
Qed.

Lemma sort_loop_Ok V datestr dst fs st l fs' st' :
  sort_loop V datestr dst fs st l = (fs', Ok st') →
  (wf fs → wf fs') ∧ (∀ q, is_file fs q = true → is_file fs' q = true)
  ∧ (∀ q, fs !! q = Some Dir → fs' !! q = Some Dir).
Proof.
  revert fs st. induction l as [|p l IH]; intros fs st; simpl.
  - by intros [= <- <-].
  - destruct (sort_step V datestr dst fs st p) as [fs1 [st1|e1]] eqn:Hstep;
      [| done].
    intros Hl. destruct (sort_step_Ok _ _ _ _ _ _ _ _ Hstep) as (Hw1 & Hf1 & Hd1).
    destruct (IH _ _ Hl) as (Hw2 & Hf2 & Hd2). split; [| split]; auto.
Qed.


Lemma select_datestr_choices g sep :
  g ∈ choices ↔ is_Some (select_datestr g sep).
Proof.
  unfold choices, select_datestr.
  rewrite !elem_of_cons, elem_of_nil.
  destruct (decide (g = "y")); [split; [by eexists | by left] |].
  destruct (decide (g = "ym")); [split; [by eexists | right; by left] |].
  destruct (decide (g = "ymd")); [split; [by eexists | right; right; by left] |].
  split; [intros [?|[?|[?|[]]]]; done | by intros [? ?]].
Qed.



(** C10: with [groupby] among the accepted choices a format string is
    bound and the run never raises [UnboundLocalError]; with any other
    value no branch binds it and the run stops at its first use, before
    anything is made or copied. *)
Theorem groupby_choice_binds_datestr a fs :
  (groupby a ∈ choices →
     (∃ datestr, select_datestr (groupby a) (sep a) = Some datestr)
     ∧ (main a fs).2 ≠ Raise UnboundLocalError)
  ∧ (groupby a ∉ choices →
     select_datestr (groupby a) (sep a) = None
     ∧ main a fs = (fs, Raise UnboundLocalError)).
Proof.
  split.
  - intros [datestr Hsel]%(select_datestr_choices _ (sep a)).
    split; [by eexists |]. unfold Sortfile.main. rewrite Hsel.
    destruct (mkdir fs (out a)) as [fs1|e] eqn:Hmk; simpl.
    + destruct (Sortfile.sort_loop _ _ _ _ _ _ _ _) as [fs2 [st|e]] eqn:Hl;
        simpl; [done |].
      apply sort_loop_IOError in Hl. by destruct e.
    + apply mkdir_IOError in Hmk. by destruct e.
  - intros Hno. rewrite (select_datestr_choices _ (sep a)) in Hno.
    assert (select_datestr (groupby a) (sep a) = None) as Hsel.
    { destruct (select_datestr _ _); [destruct Hno; by eexists | done]. }
    split; [done |]. unfold Sortfile.main. by rewrite Hsel.
Qed.

End Facts.

(** ** The theorems at work on the sample tree *)

Import Examples.



Lemma groupby_choice_binds_datestr_witness :
  (∃ datestr, select_datestr "ymd" "." = Some datestr)
  ∧ (main utc no_directive sort_args dated_tree).2 ≠ Raise UnboundLocalError
  ∧ main utc no_directive
      {| source := ["s"]; out := ["o"]; groupby := "w"; sep := ".";
         verbose := false |} dated_tree =
    (dated_tree, Raise UnboundLocalError).
Proof.
  destruct (groupby_choice_binds_datestr utc no_directive sort_args dated_tree)
    as [Hin _].
  destruct Hin as [Hsel Hrun].
  { unfold choices. simpl. rewrite !elem_of_cons. auto. }
  destruct (groupby_choice_binds_datestr utc no_directive
              {| source := ["s"]; out := ["o"]; groupby := "w"; sep := ".";
                 verbose := false |} dated_tree) as [_ Hout].
  destruct Hout as [_ Hraise].
  { unfold choices. simpl. rewrite !not_elem_of_cons.
    repeat split; try done. apply not_elem_of_nil. }
  split; [exact Hsel |]. split; [exact Hrun | exact Hraise].
Defined.

End SortfileFacts.

(* ===================================================================== *)
(** * The output directory, in both tools                                *)
(* ===================================================================== *)

Module OutputDirectory.
Import FS FSFacts.

Section Both.

Variable sha256 : bytes → bytes.
Variable utcoffset : Z → Z.
Variable platform_directive : ascii → Sortfile.datetime → string.


End Both.

Import Examples.


End OutputDirectory.


(* ===================================================================== *)
(** * Further properties of the environment                              *)
(* ===================================================================== *)

Module FSMore.
Import FS FSFacts.

Lemma prefix_joinpath (p : path) n : p `prefix_of` joinpath p n.
Proof. by exists [n]. Qed.

Lemma prefix_parent (d p : path) :
  d `prefix_of` p → p ≠ d → d `prefix_of` parent p.
Proof.
  intros [k ->] Hne. destruct k as [|c k] using rev_ind.
  - by rewrite app_nil_r in Hne.
  - exists k. unfold parent. by rewrite app_assoc, removelast_last.
Qed.

Lemma mkdir_elsewhere fs p fs' q :
  mkdir fs p = Ok fs' → q ≠ p → fs' !! q = fs !! q.
Proof.
  intros [_ [[_ ->]|[_ ->]]]%mkdir_Ok Hq; [done |]. by apply lookup_insert_ne.
Qed.

(** [copy2] writes at its destination or inside it. *)
Lemma copy2_elsewhere fs src dst fs' q :
  copy2 fs src dst = Ok fs' → ¬ dst `prefix_of` q → fs' !! q = fs !! q.
Proof.
  intros (d & t & q' & Hq' & _ & _ & _ & ->)%copy2_Ok Hq.
  apply lookup_insert_ne. intros <-. apply Hq. subst q'.
  destruct (is_dir fs dst); [apply prefix_joinpath | done].
Qed.

(** Below an existing directory [d], [makedirs] makes nothing outside
    [d]. *)
Lemma makedirs_aux_elsewhere n fs p fs' (d q : path) :
  makedirs_aux n fs p = Ok fs' → d `prefix_of` p → fs !! d = Some Dir →
  ¬ d `prefix_of` q → fs' !! q = fs !! q.
Proof.
  revert fs p fs'. induction n as [|n IH]; intros fs p fs'; simpl.
  - destruct (os_mkdir fs p) as [fs1|e] eqn:Hmk.
    + intros [= <-] Hp _ Hq. apply os_mkdir_Ok in Hmk as (_ & _ & ->).
      apply lookup_insert_ne. by intros <-.
    + destruct e; try (destruct (is_dir fs p); [by intros [= <-] | done]); done.
  - destruct (os_mkdir fs p) as [fs1|e] eqn:Hmk.
    + intros [= <-] Hp _ Hq. apply os_mkdir_Ok in Hmk as (_ & _ & ->).
      apply lookup_insert_ne. by intros <-.
    + destruct e; try (destruct (is_dir fs p); [by intros [= <-] | done]).
      destruct (decide (parent p = p)); [done |].
      destruct (makedirs_aux n fs (parent p)) as [fs1|e] eqn:Hrec; simpl; [| done].
      intros Hmk2 Hp Hd Hq.
      assert (p ≠ d) as Hpd.
      { intros Heq. rewrite Heq in Hmk. unfold os_mkdir in Hmk.
        by rewrite Hd in Hmk. }
      rewrite (mkdir_elsewhere _ _ _ _ Hmk2) by (by intros ->).
      eapply IH; [done | by apply prefix_parent | done | done].
Qed.

Lemma makedirs_elsewhere fs p fs' (d q : path) :
  makedirs fs p = Ok fs' → d `prefix_of` p → fs !! d = Some Dir →
  ¬ d `prefix_of` q → fs' !! q = fs !! q.
Proof. apply makedirs_aux_elsewhere. Qed.

Lemma nothing_belowb_spec fs (out : path) :
  nothing_belowb fs out = true →
  ∀ q : path, out `prefix_of` q → q ≠ out → fs !! q = None.
Proof.
  unfold nothing_belowb. rewrite forallb_forall. intros H q Hpre Hne.
  destruct (fs !! q) as [x|] eqn:Hx; [| done].
  apply elem_of_map_to_list, list_elem_of_In, H in Hx. simpl in Hx.
  apply orb_prop in Hx as [Hx|Hx].
  - by apply negb_true_iff, bool_decide_eq_false in Hx.
  - by apply bool_decide_eq_true in Hx.
Qed.

End FSMore.

(* ===================================================================== *)
(** * Further properties of dedup.py                                     *)
(* ===================================================================== *)

Module DedupMore.
Import FS FSFacts FSMore Dedup DedupFacts.
Local Open Scope nat_scope.

Section Runs.

Variable sha256 : bytes → bytes.

(** ** What a run writes *)

Lemma copy_files_elsewhere V out n fs lg i items fs' r (q : path) :
  copy_files V out n fs lg i items = (fs', r) →
  ¬ out `prefix_of` q → fs' !! q = fs !! q.
Proof.
  revert fs lg i. induction items as [|[k m] items IH]; intros fs lg i; simpl.
  - by intros [= <- _].
  - destruct (copy2 fs (file m) (joinpath out (name (file m)))) as [fs1|e]
      eqn:Hcp; [| by intros [= <- _]].
    intros Hrest Hq. rewrite (IH _ _ _ Hrest Hq).
    eapply copy2_elsewhere; [done |]. intros Hpre. apply Hq.
    etrans; [apply prefix_joinpath | done].
Qed.

(** X1: whatever the outcome of a run (normal return or exception at any
    point), every path that does not lie at or below the output directory
    is afterwards exactly what it was: sources are read, never moved,
    rewritten or deleted. *)
Theorem writes_only_below_out a fs (q : path) :
  ¬ out a `prefix_of` q → (main sha256 a fs).1 !! q = fs !! q.
Proof.
  intros Hq. unfold main.
  destruct (build _ _ _ _ _ _) as [st0|e]; [| done].
  destruct (mkdir fs (out a)) as [fs1|e] eqn:Hmk; [| done].
  destruct (copy_files _ _ _ _ _ _ _) as [fs2 r] eqn:Hcp.
  assert (fs2 !! q = fs !! q) as Hsame.
  { rewrite (copy_files_elsewhere _ _ _ _ _ _ _ _ _ _ Hcp Hq).
    eapply mkdir_elsewhere; [done |]. by intros ->. }
  by destruct r.
Qed.

(** ** Verbosity *)

Lemma process_verbose V1 V2 fs s1 s2 p :
  same_outcome (Ok s1) (Ok s2) →
  same_outcome (process sha256 V1 fs s1 p) (process sha256 V2 fs s2 p).
Proof.
  intros (Hf & Hc & Hs & Hcc). unfold process, file_as_bytes.
  destruct (negb (is_file fs p)); [done |]. rewrite Hf.
  destruct (dict_get (files s2) (name p)) as [kept|]; simpl.
  - destruct (read_bytes fs p) as [d|e]; simpl; [| done].
    destruct (read_bytes fs (file kept)) as [d'|e]; simpl; [| done].
    destruct (decide _); simpl; by rewrite ?Hf, ?Hc, ?Hs, ?Hcc.
  - by rewrite ?Hf, ?Hc, ?Hs, ?Hcc.
Qed.

Lemma scan_verbose V1 V2 fs l s1 s2 :
  same_outcome (Ok s1) (Ok s2) →
  same_outcome (scan sha256 V1 fs s1 l) (scan sha256 V2 fs s2 l).
Proof.
  revert s1 s2. induction l as [|p l IH]; intros s1 s2 Hs; simpl; [done |].
  pose proof (process_verbose V1 V2 fs s1 s2 p Hs) as Hp.
  destruct (process sha256 V1 fs s1 p) as [s1'|e1],
           (process sha256 V2 fs s2 p) as [s2'|e2]; simpl; try done.
  by apply IH.
Qed.

Lemma copy_files_verbose V1 V2 out n1 n2 fs lg1 lg2 i1 i2 items :
  (copy_files V1 out n1 fs lg1 i1 items).1 =
  (copy_files V2 out n2 fs lg2 i2 items).1
  ∧ match (copy_files V1 out n1 fs lg1 i1 items).2,
          (copy_files V2 out n2 fs lg2 i2 items).2 with
    | Ok _, Ok _ => True
    | Raise e1, Raise e2 => e1 = e2
    | _, _ => False
    end.
Proof.
  revert fs lg1 lg2 i1 i2.
  induction items as [|[k m] items IH]; intros fs lg1 lg2 i1 i2; simpl;
    [done |].
  destruct (copy2 fs (file m) (joinpath out (name (file m)))) as [fs1|e];
    [apply IH | done].
Qed.

(** X2: [--verbose] changes what is printed and nothing else: with either
    setting the run leaves the same file system and ends the same way, with
    the same index, conflicts and counters or with the same exception. *)
Theorem verbose_only_prints a fs v :
  (main sha256 (with_verbose a v) fs).1 = (main sha256 a fs).1
  ∧ same_outcome (main sha256 (with_verbose a v) fs).2 (main sha256 a fs).2.
Proof.
  unfold main. rewrite !build_scan. simpl.
  change (dot_ext (with_verbose a v)) with (dot_ext a).
  set (l := concat _).
  assert (same_outcome (Ok initial) (Ok initial)) as Hinit by done.
  pose proof (scan_verbose v (verbose a) fs l initial initial Hinit) as Hscan.
  destruct (scan sha256 v fs initial l) as [s1|e1],
           (scan sha256 (verbose a) fs initial l) as [s2|e2]; try done.
  destruct Hscan as (Hf & Hc & Hs & Hcc).
  destruct (mkdir fs (out a)) as [fs1|e]; [| done]. rewrite Hf.
  pose proof (copy_files_verbose v (verbose a) (out a)
                (length (files s2)) (length (files s2)) fs1
                (log s1) (log s2) 0 0 (files s2)) as [H1 H2].
  destruct (copy_files v _ _ _ _ _ _) as [fsa [lga|ea]],
           (copy_files (verbose a) _ _ _ _ _ _) as [fsb [lgb|eb]];
    simpl in *; done.
Qed.

(** ** One step, case by case *)

Lemma process_Ok V fs st p st' :
  process sha256 V fs st p = Ok st' →
  (is_file fs p = false ∧ st' = st)
  ∨ (is_file fs p = true ∧ dict_get (files st) (name p) = None
     ∧ st' = {| skip_count := skip_count st;
                conflict_count := conflict_count st;
                conflicts := conflicts st;
                files := files st ++
                  [(name p, {| file := p; filename := name p; md5 := None |})];
                log := log st |})
  ∨ (is_file fs p = true
     ∧ ∃ kept d d',
         dict_get (files st) (name p) = Some kept
         ∧ read_bytes fs p = Ok d ∧ read_bytes fs (file kept) = Ok d'
         ∧ let kept' := {| file := file kept; filename := filename kept;
                           md5 := Some (sha256 d') |} in
           let rejected := {| file := p; filename := name p;
                              md5 := Some (sha256 d) |} in
           let lg := (log st ++ [Sha256 NewFile p])
                     ++ [Sha256 IndexRecord (file kept)] in
           (sha256 d' ≠ sha256 d
            ∧ st' = {| skip_count := S (skip_count st);
                       conflict_count := S (conflict_count st);
                       conflicts := conflicts st ++ [(kept', rejected)];
                       files := dict_set (files st) (name p) kept';
                       log := lg ++ [Warning (file kept) p] |})
           ∨ (sha256 d' = sha256 d
              ∧ st' = {| skip_count := S (skip_count st);
                         conflict_count := conflict_count st;
                         conflicts := conflicts st;
                         files := dict_set (files st) (name p) kept';
                         log := info V (InfoSkipping p (file kept)) lg |})).
Proof.
  unfold process, file_as_bytes.
  destruct (is_file fs p) eqn:Hf; simpl; [| intros [= <-]; by left].
  destruct (dict_get (files st) (name p)) as [kept|] eqn:Hg.
  - destruct (read_bytes fs p) as [d|e] eqn:Hr1; simpl; [| done].
    destruct (read_bytes fs (file kept)) as [d'|e] eqn:Hr2; simpl; [| done].
    intros Hst. right. right. split; [done |]. exists kept, d, d'.
    split; [done |]. split; [done |]. split; [done |]. simpl.
    destruct (decide _) as [Hne|Heq]; injection Hst as <-.
    + left. split; [congruence | done].
    + right. split; [| done].
      destruct (decide (sha256 d' = sha256 d)); [done |].
      destruct Heq. congruence.
  - intros [= <-]. right. left. split; [done |]. split; [done |].
    by rewrite dict_set_absent.
Qed.

Lemma scan_invariant (P : state → Prop) V fs :
  (∀ st p st', P st → process sha256 V fs st p = Ok st' → P st') →
  ∀ l st st', P st → scan sha256 V fs st l = Ok st' → P st'.
Proof.
  intros Hstep l. induction l as [|p l IH]; intros st st' HP; simpl.
  - by intros [= <-].
  - destruct (process sha256 V fs st p) as [st1|e] eqn:Hp; simpl; [| done].
    apply IH. by eapply Hstep.
Qed.

Lemma read_bytes_contents fs p d :
  read_bytes fs p = Ok d → contents fs p = Some d.
Proof.
  unfold read_bytes, contents.
  destruct (fs !! p) as [[|x t [|]]|]; try done. by intros [= ->].
Qed.

Lemma length_chosen d : length (chosen d) = length d.
Proof. unfold chosen. apply length_map. Qed.

(** ** The summary *)

Lemma scan_conflicts_le V fs l st :
  scan sha256 V fs initial l = Ok st → conflict_count st ≤ skip_count st.
Proof.
  apply (scan_invariant (λ st, conflict_count st ≤ skip_count st)); [| done].
  intros s p s' Hle
    [[_ ->]|[(_ & _ & ->)|(_ & kept & d & d' & _ & _ & _ & Hcase)]]%process_Ok;
    simpl in *; try done.
  destruct Hcase as [[_ ->]|[_ ->]]; simpl; lia.
Qed.

(** X3: the summary a returning run prints last reports the number of
    distinct base names among the regular files enumerated, the number of
    sources given, the number of files met under a name already seen
    (regular files minus distinct names), and the number of conflict
    records, which is at most the number of skipped files. *)
Theorem summary_counts a fs fs' st :
  main sha256 a fs = (fs', Ok st) →
  let found := length (candidates fs a) in
  let unique := length (first_seen (candidates fs a)) in
  last (log st) =
    Some (Summary unique (length (sources a)) (found - unique)
            (length (conflicts st)))
  ∧ length (files st) = unique
  ∧ skip_count st = found - unique
  ∧ conflict_count st = length (conflicts st)
  ∧ length (conflicts st) ≤ found - unique
  ∧ unique ≤ found.
Proof.
  intros (st0 & fs1 & lg & Hscan & _ & _ & Hf & Hc & Hs & Hcc & Hlog)%main_Ok.
  pose proof (scan_scanned _ _ _ _ _ (candidates_regular fs a) Hscan) as Hsc.
  pose proof (scan_conflicts_le _ _ _ _ Hscan) as Hle.
  pose proof (scanned_skip _ _ Hsc) as Hskip.
  pose proof (scanned_conflicts _ _ Hsc) as Hconf.
  pose proof (f_equal length (scanned_chosen _ _ Hsc)) as Hlen.
  rewrite length_chosen in Hlen. simpl.
  rewrite Hlog, last_snoc, Hf, Hc, Hs, Hcc, <- Hlen, <- Hconf.
  assert (skip_count st0 =
          length (candidates fs a) - length (files st0)) as Hsk by lia.
  rewrite <- Hsk. repeat split; try done; lia.
Qed.

(** ** Warnings and conflict records *)

Lemma warnings_app l1 l2 : warnings (l1 ++ l2) = warnings l1 ++ warnings l2.
Proof. apply List.filter_app. Qed.

Lemma warnings_info V e lg :
  is_warning e = false → warnings (info V e lg) = warnings lg.
Proof.
  intros He. destruct V; simpl; [| done].
  rewrite warnings_app. unfold warnings at 2. simpl. rewrite He.
  apply app_nil_r.
Qed.

Lemma quiet_info e lg : info false e lg = lg.
Proof. done. Qed.

Lemma copy_files_prints V out n fs lg i items fs' lg' :
  copy_files V out n fs lg i items = (fs', Ok lg') →
  warnings lg' = warnings lg ∧ (V = false → lg' = lg).
Proof.
  revert fs lg i. induction items as [|[k m] items IH]; intros fs lg i; simpl.
  - by intros [= _ <-].
  - destruct (copy2 fs (file m) (joinpath out (name (file m)))) as [fs1|e];
      [| done].
    intros [Hw Hq]%IH. split.
    + by rewrite Hw, warnings_info.
    + intros ->. by rewrite Hq.
Qed.

(** X4: conflict warnings do not depend on verbosity: the [[WARNING]] lines
    of a returning run are, in order, one per conflict record, each naming
    the kept file and the rejected file of its record; and a run without
    [--verbose] prints no [info] line at all. *)
Theorem warnings_are_the_conflicts a fs fs' st :
  main sha256 a fs = (fs', Ok st) →
  warnings (log st) = map warning_of (conflicts st)
  ∧ (verbose a = false → List.filter is_info (log st) = []).
Proof.
  intros (st0 & fs1 & lg & Hscan & _ & Hcopy & _ & Hc & _ & _ & Hlog)%main_Ok.
  apply copy_files_prints in Hcopy as [Hw Hq].
  assert (warnings (log st0) = map warning_of (conflicts st0)
          ∧ (verbose a = false → List.filter is_info (log st0) = []))
    as [Hw0 Hq0].
  { revert Hscan.
    apply (scan_invariant
             (λ s, warnings (log s) = map warning_of (conflicts s)
                   ∧ (verbose a = false → List.filter is_info (log s) = [])));
      [| done].
    intros s p s' [Hws Hqs]
      [[_ ->]|[(_ & _ & ->)|(_ & kept & d & d' & _ & _ & _ & Hcase)]]
      %process_Ok; simpl in *; try done.
    destruct Hcase as [[_ ->]|[_ ->]]; simpl.
    - rewrite !warnings_app, map_app, Hws. unfold warnings at 1 2 3. simpl.
      rewrite !app_nil_r. split; [done |].
      intros Hv. rewrite !List.filter_app, (Hqs Hv). reflexivity.
    - rewrite warnings_info, !warnings_app, Hws by done.
      unfold warnings at 1 2. simpl.
      split; [by rewrite !app_nil_r |].
      intros Hv. rewrite Hv. simpl.
      rewrite !List.filter_app, (Hqs Hv). reflexivity. }
  rewrite Hlog, Hc, warnings_app, Hw, Hw0. split; [apply app_nil_r |].
  intros Hv. rewrite (Hq Hv), List.filter_app, (Hq0 Hv). done.
Qed.

Lemma conflict_ok_snoc fs l p c :
  conflict_ok sha256 fs l c → conflict_ok sha256 fs (l ++ [p]) c.
Proof.
  intros (H1 & H2 & H3 & H4 & H5). split; [done |]. split; [done |].
  split; [by apply first_named_snoc_Some |].
  split; [apply elem_of_app; by left | done].
Qed.

Lemma scan_conflicts_ok V fs l st :
  Forall (λ p, is_file fs p = true) l →
  scan sha256 V fs initial l = Ok st →
  Forall (conflict_ok sha256 fs l) (conflicts st).
Proof.
  revert st. induction l as [|p l IH] using rev_ind; intros st Hall.
  - simpl. intros [= <-]. constructor.
  - apply Forall_app in Hall as [Hl Hp]. rewrite Forall_singleton in Hp.
    rewrite scan_app.
    destruct (scan sha256 V fs initial l) as [st1|e] eqn:Hscan; simpl; [| done].
    destruct (process sha256 V fs st1 p) as [st2|e] eqn:Hstep; simpl; [| done].
    intros [= <-].
    pose proof (scan_scanned _ _ _ _ _ Hl Hscan) as Hs.
    assert (Forall (conflict_ok sha256 fs (l ++ [p])) (conflicts st1)) as Hold.
    { eapply Forall_impl; [by apply IH |]. intros c. apply conflict_ok_snoc. }
    apply process_Ok in Hstep
      as [[_ ->]|[(_ & _ & ->)|(_ & kept & d & d' & Hg & Hr1 & Hr2 & Hcase)]];
      try done.
    destruct Hcase as [[Hne ->]|[_ ->]]; simpl; [| done].
    apply Forall_app. split; [done |]. apply Forall_singleton.
    pose proof (scanned_first _ _ Hs (name p)) as Hfirst.
    rewrite Hg in Hfirst. simpl in Hfirst.
    pose proof (scanned_filename _ _ Hs _ _ Hg) as Hfn.
    split; [done |]. split; [done |]. simpl. split.
    { rewrite Hfn. by apply first_named_snoc_Some. }
    split; [apply elem_of_app; right; by apply list_elem_of_singleton |].
    exists d', d. split; [by apply read_bytes_contents |].
    split; [by apply read_bytes_contents | done].
Qed.

(** X5: every conflict record of a returning run pairs two files of the
    same base name, the first regular file enumerated under that name
    (kept) and a later one (rejected); each side carries the digest of its
    own file, and the two digests differ. *)
Theorem conflicts_pair_first_and_later a fs fs' st :
  main sha256 a fs = (fs', Ok st) →
  Forall (conflict_ok sha256 fs (candidates fs a)) (conflicts st).
Proof.
  intros (st0 & fs1 & lg & Hscan & _ & _ & _ & -> & _)%main_Ok.
  eapply scan_conflicts_ok; [apply candidates_regular | done].
Qed.

(** ** The records of the index *)

Lemma is_file_contents fs p :
  is_file fs p = true → ∃ d, contents fs p = Some d.
Proof.
  unfold is_file, contents. destruct (fs !! p) as [[|d t r]|]; try done.
  by exists d.
Qed.

Lemma candidates_found fs a p :
  p ∈ candidates fs a →
  is_file fs p = true
  ∧ ends_with (name p) (dot_ext a) = true
  ∧ ∃ src, src ∈ sources a ∧ src `prefix_of` p ∧ p ≠ src.
Proof.
  unfold candidates, enumerated.
  intros [Hin Hf]%list_elem_of_In%List.filter_In. split; [done |].
  apply in_concat in Hin as (g & Hg & Hp).
  apply in_map_iff in Hg as (src & <- & Hsrc).
  apply list_elem_of_In in Hp. unfold glob in Hp.
  destruct (is_dir fs src); [| by apply elem_of_nil in Hp].
  apply list_elem_of_filter in Hp as [(Hpre & Hne & Hext) _].
  split; [done |]. exists src. by rewrite list_elem_of_In.
Qed.

Lemma scan_md5 V fs l st :
  Forall (λ p, is_file fs p = true) l →
  scan sha256 V fs initial l = Ok st →
  ∀ k m, dict_get (files st) k = Some m →
    ∃ d, contents fs (file m) = Some d
         ∧ md5 m = if decide (count_named l k = 1)
                   then None else Some (sha256 d).
Proof.
  revert st. induction l as [|p l IH] using rev_ind; intros st Hall.
  - simpl. by intros [= <-] k m.
  - apply Forall_app in Hall as [Hl Hp]. rewrite Forall_singleton in Hp.
    rewrite scan_app.
    destruct (scan sha256 V fs initial l) as [st1|e] eqn:Hscan; simpl; [| done].
    destruct (process sha256 V fs st1 p) as [st2|e] eqn:Hstep; simpl; [| done].
    intros [= <-] k m.
    pose proof (scan_scanned _ _ _ _ _ Hl Hscan) as Hs.
    pose proof (scanned_first _ _ Hs (name p)) as Hfirst.
    assert (Hother : name p ≠ k → dict_get (files st1) k = Some m →
              ∃ d, contents fs (file m) = Some d
                   ∧ md5 m = if decide (count_named (l ++ [p]) k = 1)
                             then None else Some (sha256 d)).
    { intros Hne Hg. rewrite count_named_snoc_ne by done. by eapply IH. }
    apply process_Ok in Hstep
      as [[Hnf ->]|[(_ & Hg & ->)|(_ & kept & d & d' & Hg & Hr1 & Hr2 & Hcase)]].
    + congruence.
    + simpl. rewrite <- (dict_set_absent _ _ _ Hg).
      destruct (decide (name p = k)) as [<-|Hne].
      * rewrite dict_get_set_eq. intros [= <-]. simpl.
        destruct (is_file_contents _ _ Hp) as [dp Hdp]. exists dp.
        split; [done |]. rewrite count_named_snoc_eq.
        rewrite Hg in Hfirst. simpl in Hfirst. symmetry in Hfirst.
        apply first_named_None_count in Hfirst. rewrite Hfirst.
        by rewrite decide_True.
      * rewrite dict_get_set_ne by done. by apply Hother.
    + assert (files st2 = dict_set (files st1) (name p)
                {| file := file kept; filename := filename kept;
                   md5 := Some (sha256 d') |}) as ->
        by (by destruct Hcase as [[_ ->]|[_ ->]]).
      destruct (decide (name p = k)) as [<-|Hne].
      * rewrite dict_get_set_eq. intros [= <-]. simpl. exists d'.
        split; [by apply read_bytes_contents |].
        rewrite count_named_snoc_eq.
        rewrite Hg in Hfirst. simpl in Hfirst.
        assert (count_named l (name p) ≠ 0) as Hpos.
        { rewrite <- first_named_None_count. by rewrite <- Hfirst. }
        rewrite decide_False; [done | lia].
      * rewrite dict_get_set_ne by done. by apply Hother.
Qed.

(** X6: in the index of a returning run every record is filed under its
    own [filename], which is the base name of its [file]; that file is a
    regular file found strictly below one of the sources; and the record
    carries a digest (that of its file) exactly when its name was
    enumerated more than once: the files of names seen once are never
    read before they are copied. *)
Theorem index_records a fs fs' st k m :
  main sha256 a fs = (fs', Ok st) → (k, m) ∈ files st →
  record_ok sha256 fs a k m.
Proof.
  intros (st0 & fs1 & lg & Hscan & _ & _ & -> & _)%main_Ok Hkm.
  pose proof (scan_scanned _ _ _ _ _ (candidates_regular fs a) Hscan) as Hs.
  pose proof (dict_elem_of_get _ _ _ (scanned_keys _ _ Hs) Hkm) as Hg.
  pose proof (scanned_first _ _ Hs k) as Hfirst. rewrite Hg in Hfirst.
  simpl in Hfirst. symmetry in Hfirst.
  split; [by eapply scanned_filename |].
  split; [by eapply first_named_name |]. split.
  - apply first_named_elem_of, candidates_found in Hfirst. tauto.
  - by eapply scan_md5; [apply candidates_regular | |].
Qed.


(** ** A file that cannot be read and is never hashed *)

Lemma count_named_pos l q : q ∈ l → count_named l (name q) ≠ 0.
Proof.
  intros Hq. rewrite <- first_named_None_count.
  assert (is_Some (first_named l (name q))) as [? ->]; [| done].
  apply first_named_is_Some. by exists q.
Qed.

(** The scan returns as soon as every file that takes part in a collision
    can be read. *)
Lemma scan_succeeds_collisions V fs l :
  Forall (λ q, is_file fs q = true
               ∧ (readable fs q = true ∨ count_named l (name q) = 1)) l →
  ∃ st, scan sha256 V fs initial l = Ok st.
Proof.
  induction l as [|p l IH] using rev_ind; intros Hall; [by eexists |].
  pose proof Hall as Hfull.
  apply Forall_app in Hall as [Hl Hp]. rewrite Forall_singleton in Hp.
  destruct Hp as [Hpf Hpr].
  assert (Hl' : Forall (λ q, is_file fs q = true
                  ∧ (readable fs q = true ∨ count_named l (name q) = 1)) l).
  { rewrite Forall_forall in *. intros q Hq. destruct (Hl q Hq) as [Hf [Hr|Hc]].
    - by split; [| left].
    - split; [done |]. right. rewrite count_named_app in Hc.
      pose proof (count_named_pos l q Hq). lia. }
  destruct (IH Hl') as [st1 Hst1]. rewrite scan_app, Hst1. simpl.
  assert (scanned l st1) as Hs.
  { eapply scan_scanned; [| done]. eapply Forall_impl; [done |]. by intros ? []. }
  unfold process, file_as_bytes. rewrite Hpf. simpl.
  destruct (dict_get (files st1) (name p)) as [kept|] eqn:Hg; [| by eexists].
  pose proof (scanned_first _ _ Hs (name p)) as Hfp. rewrite Hg in Hfp.
  simpl in Hfp. symmetry in Hfp.
  pose proof (first_named_elem_of _ _ _ Hfp) as Hkin.
  assert (count_named l (name p) ≠ 0) as Hpos.
  { rewrite <- first_named_None_count. by rewrite Hfp. }
  assert (readable fs p = true) as Hrp.
  { destruct Hpr as [?|Hc]; [done |]. rewrite count_named_snoc_eq in Hc. lia. }
  assert (readable fs (file kept) = true) as Hrk.
  { rewrite Forall_forall in Hl. destruct (Hl _ Hkin) as [_ [?|Hc]]; [done |].
    rewrite (first_named_name _ _ _ Hfp), count_named_snoc_eq in Hc. lia. }
  destruct (read_bytes_Ok _ p Hpf Hrp) as (d & -> & _). simpl.
  assert (is_file fs (file kept) = true) as Hkf.
  { rewrite Forall_forall in Hl. by destruct (Hl _ Hkin). }
  destruct (read_bytes_Ok _ _ Hkf Hrk) as (d' & -> & _). simpl.
  destruct (decide _); by eexists.
Qed.

Lemma note_extends l acc : ∃ more, fold_left note l acc = acc ++ more.
Proof.
  revert acc. induction l as [|p l IH]; intros acc; simpl.
  - exists []. by rewrite app_nil_r.
  - unfold note at 2. destruct (bool_decide _); [apply IH |].
    destruct (IH (acc ++ [(name p, p)])) as [more ->].
    exists ((name p, p) :: more). by rewrite <- app_assoc.
Qed.

Lemma first_seen_keys l n :
  n ∈ map fst (first_seen l) ↔ is_Some (first_named l n).
Proof.
  revert n. induction l as [|p l IH] using rev_ind; intros n.
  - simpl. split; [by intros ?%elem_of_nil | by intros [? ?]].
  - unfold first_seen. rewrite fold_left_app. simpl. fold (first_seen l).
    rewrite first_named_app. simpl. unfold note.
    destruct (bool_decide (name p ∈ map fst (first_seen l))) eqn:Hb.
    + rewrite IH. apply bool_decide_eq_true in Hb. apply IH in Hb.
      destruct (first_named l n) eqn:Hn; [done |].
      destruct (decide (name p = n)) as [<-|]; [| done].
      rewrite Hn in Hb. by destruct Hb.
    + apply bool_decide_eq_false in Hb. rewrite map_app, elem_of_app, IH.
      simpl. rewrite list_elem_of_singleton.
      destruct (first_named l n) as [q|] eqn:Hq.
      * split; [by eexists | left; by eexists].
      * destruct (decide (name p = n)) as [<-|Hne].
        -- split; [by eexists | by right].
        -- split; [intros [[? ?]|?]; done | by intros [? ?]].
Qed.

Lemma first_seen_spec l n q :
  (n, q) ∈ first_seen l ↔ first_named l n = Some q.
Proof.
  induction l as [|p l IH] using rev_ind.
  - simpl. split; [by intros ?%elem_of_nil | done].
  - unfold first_seen. rewrite fold_left_app. simpl. fold (first_seen l).
    rewrite first_named_app. simpl. unfold note.
    pose proof (first_seen_keys l (name p)) as Hk.
    destruct (bool_decide (name p ∈ map fst (first_seen l))) eqn:Hb.
    + apply bool_decide_eq_true in Hb. apply Hk in Hb as [r Hr].
      rewrite IH. destruct (first_named l n) as [q'|] eqn:Hq; [done |].
      destruct (decide (name p = n)) as [<-|]; [congruence | done].
    + apply bool_decide_eq_false in Hb. rewrite elem_of_app, IH.
      rewrite list_elem_of_singleton.
      destruct (first_named l n) as [q'|] eqn:Hq.
      * split; [intros [?|[= Hn Hqp]]; [done |] | by left].
        subst n. destruct Hb. apply Hk. by eexists.
      * destruct (decide (name p = n)) as [Hn|Hne].
        -- subst n.
           split; [intros [?|[= Hqp]]; [done | by subst q]
                  | intros [= <-]; by right].
        -- split; [intros [?|[= Hn Hqp]]; [done | by subst n] | done].
Qed.

Lemma copy_files_app V out n fs lg i items1 items2 :
  copy_files V out n fs lg i (items1 ++ items2) =
  match copy_files V out n fs lg i items1 with
  | (fs', Ok lg') => copy_files V out n fs' lg' (i + length items1) items2
  | (fs', Raise e) => (fs', Raise e)
  end.
Proof.
  revert fs lg i. induction items1 as [|[k m] items1 IH]; intros fs lg i; simpl.
  - by rewrite Nat.add_0_r.
  - destruct (copy2 fs (file m) (joinpath out (name (file m)))) as [fs1|e];
      [| done].
    rewrite IH. by replace (S i + length items1) with (i + S (length items1))
      by lia.
Qed.

(** X8: a file that cannot be read but whose base name is enumerated only
    once is never hashed, so the failure shows only in the copy loop: the
    run then raises [PermissionError] after having made the output
    directory and copied the files first seen before it.  The output
    directory is left with exactly those copies; nothing is rolled
    back. *)
Theorem unreadable_unique_file_stops_the_copy a fs l1 p l2 :
  fresh fs (out a) →
  candidates fs a = l1 ++ p :: l2 →
  Forall (λ q, readable fs q = true) (l1 ++ l2) →
  readable fs p = false →
  first_named (l1 ++ l2) (name p) = None →
  ∃ fs',
    main sha256 a fs = (fs', Raise PermissionError)
    ∧ fs' !! out a = Some Dir
    ∧ ∀ n, contents fs' (joinpath (out a) n) =
           first_named l1 n ≫= contents fs.
Proof.
  intros [Hout Hempty] Hl Hread Hp Huniq.
  pose proof (candidates_regular fs a) as Hreg. rewrite Hl in Hreg.
  rewrite first_named_app in Huniq.
  destruct (first_named l1 (name p)) eqn:H1; [done |].
  rename Huniq into H2.
  assert (Hpf : is_file fs p = true).
  { rewrite Forall_forall in Hreg. apply Hreg, elem_of_app. right.
    apply elem_of_cons. by left. }
  (* the index is built *)
  destruct (scan_succeeds_collisions (verbose a) fs (l1 ++ p :: l2))
    as [st0 Hscan].
  { rewrite Forall_forall in *. intros q Hq. split; [by apply Hreg |].
    apply elem_of_app in Hq as [Hq|[->|Hq]%elem_of_cons].
    - left. apply Hread, elem_of_app. by left.
    - right. rewrite count_named_app. simpl. rewrite decide_True by done.
      apply first_named_None_count in H1, H2. lia.
    - left. apply Hread, elem_of_app. by right. }
  pose proof (scan_scanned _ _ _ _ _ Hreg Hscan) as Hs.
  (* the output directory is made *)
  assert (∃ fs1, mkdir fs (out a) = Ok fs1 ∧ fs1 !! out a = Some Dir
                 ∧ ∀ q, q ≠ out a → fs1 !! q = fs !! q)
    as (fs1 & Hmk & Hdir & Hsame).
  { destruct Hout as [Hd|[Hn Hpar]].
    - exists fs. by rewrite mkdir_existing.
    - exists (<[out a := Dir]> fs). rewrite mkdir_absent by done.
      split; [done |]. split; [apply lookup_insert_eq |].
      intros q Hq. by apply lookup_insert_ne. }
  (* the record of [p] splits the index *)
  assert (∃ more, first_seen (l1 ++ p :: l2) =
                  first_seen l1 ++ (name p, p) :: more) as [more Hfs].
  { unfold first_seen. rewrite fold_left_app. simpl. fold (first_seen l1).
    unfold note at 2. rewrite bool_decide_eq_false_2.
    - destruct (note_extends l2 (first_seen l1 ++ [(name p, p)])) as [more ->].
      exists more. by rewrite <- app_assoc.
    - rewrite first_seen_keys, H1. by intros [? ?]. }
  pose proof (scanned_chosen _ _ Hs) as Hch. rewrite Hfs in Hch.
  unfold chosen in Hch.
  apply map_eq_app in Hch as (i1 & rest & Hfiles & Hi1 & Hrest).
  apply map_eq_cons in Hrest as ([k m] & i2 & -> & Hkm & _).
  simpl in Hkm. injection Hkm as -> Hm.
  (* what the records before it are *)
  assert (Hrec : ∀ k' m', (k', m') ∈ i1 →
            first_named l1 k' = Some (file m') ∧ name (file m') = k'
            ∧ (∃ d t, fs !! file m' = Some (File d t true))
            ∧ file m' ≠ out a ∧ ∀ n, file m' ≠ joinpath (out a) n).
  { intros k' m' Hin.
    assert ((k', file m') ∈ first_seen l1) as Hfirst.
    { rewrite <- Hi1.
      by apply (list_elem_of_fmap_2'
                  (λ kv : string * metadata, (kv.1, file kv.2)) _ (k', m')). }
    apply first_seen_spec in Hfirst. split; [done |].
    split; [by eapply first_named_name |].
    pose proof (first_named_elem_of _ _ _ Hfirst) as Hin1.
    rewrite Forall_forall in Hreg, Hread.
    assert (is_file fs (file m') = true) as Hf
      by (apply Hreg, elem_of_app; by left).
    assert (readable fs (file m') = true) as Hr
      by (apply Hread, elem_of_app; by left).
    unfold is_file, readable in Hf, Hr.
    destruct (fs !! file m') as [[|d t r]|] eqn:Hfm; try done. subst r.
    split; [by eauto |]. split.
    - intros Heq. rewrite Heq in Hfm. destruct Hout as [?|[? _]]; congruence.
    - intros n Heq. rewrite Heq, Hempty in Hfm. done. }
  destruct (copy_files_ok (verbose a) (out a)
              (length (i1 ++ (name p, m) :: i2)) fs1
              (log st0) 0 i1) as (fsA & lgA & Hcopy & Hin & Hother).
  { done. }
  { intros n. unfold is_dir. rewrite Hsame by apply joinpath_ne.
    by rewrite Hempty. }
  { assert (map (λ kv : string * metadata, name (file kv.2)) i1 = map fst i1)
      as ->.
    { apply map_ext_in. intros [k' m'] Hkm%list_elem_of_In. simpl.
      by destruct (Hrec k' m' Hkm) as (_ & ? & _). }
    pose proof (scanned_keys _ _ Hs) as Hnd. rewrite Hfiles, map_app in Hnd.
    by apply NoDup_app in Hnd as [? _]. }
  { intros k' m' Hkm. destruct (Hrec k' m' Hkm) as (_ & _ & Hex & Hno & Hnj).
    split; [| done]. by rewrite Hsame. }
  (* [p] itself *)
  assert (Hpno : p ≠ out a ∧ ∀ n, p ≠ joinpath (out a) n).
  { unfold is_file in Hpf. split.
    - intros ->. destruct Hout as [H|[H _]]; by rewrite H in Hpf.
    - intros n ->. by rewrite Hempty in Hpf. }
  destruct Hpno as [Hpo Hpj].
  assert (Hdst : ∀ n, first_named l1 n = None →
            fsA !! joinpath (out a) n = None).
  { intros n Hn. rewrite Hother.
    - rewrite Hsame by apply joinpath_ne. apply Hempty.
    - intros k' m' Hkm' Heq%joinpath_inj.
      destruct (Hrec k' m' Hkm') as (Hf & Hname & _). congruence. }
  assert (fsA !! p = fs !! p) as HpA.
  { rewrite Hother; [by apply Hsame |]. intros k' m' _. apply Hpj. }
  assert (copy2 fsA p (joinpath (out a) (name p)) = Raise PermissionError)
    as Hfail.
  { unfold copy2, is_dir. rewrite (Hdst _ H1), HpA.
    rewrite bool_decide_eq_false_2 by apply Hpj. simpl.
    unfold is_file, readable in Hpf, Hp.
    by destruct (fs !! p) as [[|d t [|]]|]. }
  exists fsA. split; [| split].
  - unfold main. rewrite build_candidates, Hl, Hscan, Hmk, Hfiles.
    rewrite copy_files_app, Hcopy. simpl. rewrite Hm, Hfail. done.
  - rewrite Hother; [done |]. intros k' m' _ Heq. symmetry in Heq.
    by apply joinpath_ne in Heq.
  - intros n. destruct (first_named l1 n) as [q|] eqn:Hq; simpl.
    + apply first_seen_spec in Hq. rewrite <- Hi1 in Hq.
      apply (list_elem_of_fmap_1
               (λ kv : string * metadata, (kv.1, file kv.2))) in Hq
        as ([k' m'] & [= -> ->] & Hkm').
      destruct (Hrec k' m' Hkm') as (_ & Hname & _ & Hno & _).
      destruct (Hin k' m' Hkm') as (d & t & Hsrc & Hdstf).
      rewrite Hname in Hdstf. unfold contents. rewrite Hdstf.
      rewrite Hsame in Hsrc by done. by rewrite Hsrc.
    + unfold contents. by rewrite (Hdst n Hq).
Qed.

(** ** Modification times *)

(** X18: the copies are made with [shutil.copy2]: after a returning run
    into a fresh output directory, the copy kept under a name has the
    bytes and also the modification time of the first regular file
    enumerated under that name. *)
Theorem copies_keep_times a fs fs' st n p :
  fresh fs (out a) → main sha256 a fs = (fs', Ok st) →
  first_named (candidates fs a) n = Some p →
  ∃ d t, fs !! p = Some (File d t true)
         ∧ fs' !! joinpath (out a) n = Some (File d t true)
         ∧ st_mtime fs' (joinpath (out a) n) = st_mtime fs p.
Proof.
  intros Hfresh Hmain Hp.
  pose proof (main_Ok_readable sha256 _ _ _ _ Hfresh Hmain) as Hread.
  destruct Hfresh as [Hout Hempty].
  apply main_Ok in Hmain as (st0 & fs1 & lg & Hscan & Hmk & Hcopy & _).
  set (l := candidates fs a) in *.
  pose proof (candidates_regular fs a) as Hreg. fold l in Hreg.
  pose proof (scan_scanned sha256 (verbose a) fs l st0 Hreg Hscan) as Hs.
  assert (Hsame : ∀ q, q ≠ out a → fs1 !! q = fs !! q)
    by (intros q Hq; by eapply mkdir_elsewhere).
  assert (Hdir : fs1 !! out a = Some Dir) by (by apply mkdir_Ok in Hmk as [? _]).
  assert (Hrec : ∀ k m, (k, m) ∈ files st0 →
            name (file m) = k
            ∧ (∃ d t, fs !! file m = Some (File d t true))
            ∧ file m ≠ out a ∧ ∀ k', file m ≠ joinpath (out a) k').
  { intros k m Hkm.
    pose proof (dict_elem_of_get _ _ _ (scanned_keys _ _ Hs) Hkm) as Hg.
    pose proof (scanned_first _ _ Hs k) as Hf. rewrite Hg in Hf.
    simpl in Hf. symmetry in Hf.
    pose proof (first_named_elem_of _ _ _ Hf) as Hin.
    rewrite Forall_forall in Hreg, Hread.
    pose proof (Hreg _ Hin) as Hfile. pose proof (Hread _ Hin) as Hr.
    unfold is_file, readable in Hfile, Hr.
    destruct (fs !! file m) as [[|d t r]|] eqn:Hm; try done. subst r.
    split; [by eapply first_named_name |]. split; [by eauto |]. split.
    - intros Heq. rewrite Heq in Hm. destruct Hout as [?|[? _]]; congruence.
    - intros k' Heq. rewrite Heq, Hempty in Hm. done. }
  destruct (copy_files_ok (verbose a) (out a) (length (files st0)) fs1
              (log st0) 0 (files st0)) as (fs2 & lg2 & Hcopy2 & Hin & _).
  { done. }
  { intros k. unfold is_dir.
    rewrite Hsame by apply joinpath_ne. by rewrite Hempty. }
  { assert (map (λ kv : string * metadata, name (file kv.2)) (files st0)
            = map fst (files st0)) as ->.
    { apply map_ext_in. intros [k m] Hkm%list_elem_of_In. simpl.
      by destruct (Hrec k m Hkm). }
    apply (scanned_keys _ _ Hs). }
  { intros k m Hkm. destruct (Hrec k m Hkm) as (_ & Hex & Hno & Hnj).
    split; [| done]. by rewrite Hsame. }
  rewrite Hcopy2 in Hcopy. injection Hcopy as <- _.
  destruct (scanned_lookup _ _ _ _ Hs Hp) as (m & Hg & <- & _).
  apply dict_get_elem_of in Hg.
  destruct (Hrec n m Hg) as (Hname & _ & Hno & _).
  destruct (Hin n m Hg) as (d & t & H1 & H2).
  rewrite Hname in H2. rewrite Hsame in H1 by done.
  exists d, t. split; [done |]. split; [done |].
  unfold st_mtime. by rewrite H1, H2.
Qed.

End Runs.

(** ** The theorems at work on the sample trees *)

Import Examples.

Lemma half_locked_fresh : fresh half_locked ["o"].
Proof.
  split; [right; split; vm_compute; reflexivity |].
  apply emptyb_empty. vm_compute. reflexivity.
Qed.


Lemma writes_only_below_out_witness :
  ¬ out dedup_args `prefix_of` (["a"; "x.txt"] : path)
  ∧ (main plain_digest dedup_args tree).1 !! (["a"; "x.txt"] : path) =
    tree !! (["a"; "x.txt"] : path).
Proof.
  assert (¬ out dedup_args `prefix_of` (["a"; "x.txt"] : path)) as H
    by (intros [k Hk]; discriminate Hk).
  split; [exact H |].
  exact (writes_only_below_out plain_digest dedup_args tree _ H).
Defined.

Lemma summary_counts_witness :
  main plain_digest dedup_args tree = (tree_merged, Ok merged_state)
  ∧ last (log merged_state) = Some (Summary 2 3 2 1)
  ∧ length (files merged_state) = 2
  ∧ skip_count merged_state = 4 - 2
  ∧ conflict_count merged_state = 1.
Proof.
  destruct (summary_counts plain_digest dedup_args tree tree_merged
              merged_state tree_run) as (Hlast & Hfiles & Hskip & Hc & _).
  rewrite tree_candidates in Hlast, Hfiles, Hskip.
  split; [exact tree_run |]. split; [exact Hlast |].
  split; [exact Hfiles |]. split; [exact Hskip | exact Hc].
Defined.

Lemma warnings_are_the_conflicts_witness :
  warnings (log merged_state) = [Warning ["a"; "x.txt"] ["b"; "x.txt"]]
  ∧ List.filter is_info (log merged_state) = [].
Proof.
  destruct (warnings_are_the_conflicts plain_digest dedup_args tree
              tree_merged merged_state tree_run) as [Hw Hi].
  split; [exact Hw | exact (Hi eq_refl)].
Defined.

Lemma conflicts_pair_first_and_later_witness :
  Forall (conflict_ok plain_digest tree (candidates tree dedup_args))
    (conflicts merged_state).
Proof.
  exact (conflicts_pair_first_and_later plain_digest dedup_args tree
           tree_merged merged_state tree_run).
Defined.

Lemma index_records_witness :
  record_ok plain_digest tree dedup_args "x.txt" kept_x
  ∧ record_ok plain_digest tree dedup_args "y.txt"
      {| file := ["c"; "y.txt"]; filename := "y.txt"; md5 := None |}.
Proof.
  split;
    apply (index_records plain_digest dedup_args tree tree_merged
             merged_state _ _ tree_run);
    unfold merged_state; simpl; rewrite !elem_of_cons; auto.
Defined.


Lemma unreadable_unique_file_stops_the_copy_witness :
  ∃ fs',
    main plain_digest dedup_args half_locked = (fs', Raise PermissionError)
    ∧ fs' !! out dedup_args = Some Dir
    ∧ ∀ n, contents fs' (joinpath (out dedup_args) n) =
           first_named [["a"; "x.txt"]; ["b"; "x.txt"]] n
             ≫= contents half_locked.
Proof.
  apply (unreadable_unique_file_stops_the_copy plain_digest dedup_args
           half_locked [["a"; "x.txt"]; ["b"; "x.txt"]] ["c"; "y.txt"]
           [["c"; "x.txt"]]).
  - exact half_locked_fresh.
  - vm_compute. reflexivity.
  - repeat constructor; vm_compute; reflexivity.
  - vm_compute. reflexivity.
  - vm_compute. reflexivity.
Defined.

Lemma copies_keep_times_witness :
  ∃ d t, tree !! (["a"; "x.txt"] : path) = Some (File d t true)
         ∧ tree_merged !! joinpath (out dedup_args) "x.txt" =
           Some (File d t true)
         ∧ st_mtime tree_merged (joinpath (out dedup_args) "x.txt") =
           st_mtime tree ["a"; "x.txt"].
Proof.
  apply (copies_keep_times plain_digest dedup_args tree tree_merged
           merged_state "x.txt" ["a"; "x.txt"] tree_fresh tree_run).
  rewrite tree_candidates. reflexivity.
Defined.

End DedupMore.

(* ===================================================================== *)
(** * Further properties of sortfile.py                                  *)
(* ===================================================================== *)

Module SortfileMore.
Import FS FSFacts FSMore Sortfile SortfileFacts.

Section Runs.

Variable utcoffset : Z → Z.
Variable platform_directive : ascii → datetime → string.

Local Abbreviation strftime := (strftime platform_directive).
Local Abbreviation fromtimestamp := (fromtimestamp utcoffset).
Local Abbreviation destination := (destination utcoffset platform_directive).
Local Abbreviation sort_step := (sort_step utcoffset platform_directive).
Local Abbreviation sort_loop := (sort_loop utcoffset platform_directive).
Local Abbreviation main := (main utcoffset platform_directive).
Local Abbreviation target := (target utcoffset platform_directive).
Local Abbreviation last_sent := (last_sent utcoffset platform_directive).

(** ** What a run writes *)

Lemma destination_below datestr (dst : path) srcfile t :
  dst `prefix_of` parent (destination datestr dst srcfile t)
  ∧ dst `prefix_of` destination datestr dst srcfile t.
Proof.
  unfold Sortfile.destination. rewrite parent_joinpath. split.
  - by eexists.
  - unfold joinpath. rewrite <- app_assoc. by eexists.
Qed.

Lemma sort_step_elsewhere V datestr (dst : path) fs st p fs' r :
  fs !! dst = Some Dir →
  sort_step V datestr dst fs st p = (fs', r) →
  fs' !! dst = Some Dir
  ∧ ∀ q : path, ¬ dst `prefix_of` q → fs' !! q = fs !! q.
Proof.
  intros Hd. unfold Sortfile.sort_step.
  destruct (negb (is_file fs p)); [by intros [= <- _] |].
  destruct (st_mtime fs p) as [t|e]; [| by intros [= <- _]].
  fold (destination datestr dst p t).
  destruct (destination_below datestr dst p t) as [Hpar Hdest].
  destruct (makedirs fs _) as [fs1|e] eqn:Hmk; [| by intros [= <- _]].
  assert (fs1 !! dst = Some Dir) as Hd1 by (by eapply makedirs_preserves).
  assert (Hout1 : ∀ q : path, ¬ dst `prefix_of` q → fs1 !! q = fs !! q).
  { intros q Hq. by eapply makedirs_elsewhere. }
  destruct (copy2 fs1 p _) as [fs2|e] eqn:Hcp; intros [= <- _]; [| done].
  split; [by eapply copy2_dir |].
  intros q Hq. rewrite <- (Hout1 q Hq). eapply copy2_elsewhere; [done |].
  intros Hpre. apply Hq. by etrans.
Qed.

Lemma sort_loop_elsewhere V datestr (dst : path) fs st l fs' r :
  fs !! dst = Some Dir →
  sort_loop V datestr dst fs st l = (fs', r) →
  ∀ q : path, ¬ dst `prefix_of` q → fs' !! q = fs !! q.
Proof.
  revert fs st. induction l as [|p l IH]; intros fs st Hd; simpl.
  - by intros [= <- _].
  - destruct (sort_step V datestr dst fs st p) as [fs1 [st1|e]] eqn:Hstep;
      destruct (sort_step_elsewhere _ _ _ _ _ _ _ _ Hd Hstep) as [Hd1 Hout1].
    + intros Hl q Hq. rewrite <- (Hout1 q Hq). by eapply IH.
    + by intros [= <- _].
Qed.


(** ** Verbosity *)

Lemma sort_step_verbose V1 V2 datestr dst fs s1 s2 p :
  file_count s1 = file_count s2 →
  (sort_step V1 datestr dst fs s1 p).1 = (sort_step V2 datestr dst fs s2 p).1
  ∧ same_count (sort_step V1 datestr dst fs s1 p).2
               (sort_step V2 datestr dst fs s2 p).2.
Proof.
  intros Hc. unfold Sortfile.sort_step.
  destruct (negb (is_file fs p)); [done |].
  destruct (st_mtime fs p) as [t|e]; [| done].
  destruct (makedirs fs _) as [fs1|e]; [| done].
  destruct (copy2 fs1 p _) as [fs2|e]; [| done].
  simpl. by rewrite Hc.
Qed.

Lemma sort_loop_verbose V1 V2 datestr dst fs s1 s2 l :
  file_count s1 = file_count s2 →
  (sort_loop V1 datestr dst fs s1 l).1 = (sort_loop V2 datestr dst fs s2 l).1
  ∧ same_count (sort_loop V1 datestr dst fs s1 l).2
               (sort_loop V2 datestr dst fs s2 l).2.
Proof.
  revert fs s1 s2. induction l as [|p l IH]; intros fs s1 s2 Hc; simpl;
    [done |].
  destruct (sort_step_verbose V1 V2 datestr dst fs s1 s2 p Hc) as [Hfs Hr].
  destruct (sort_step V1 datestr dst fs s1 p) as [fsa [sa|ea]],
           (sort_step V2 datestr dst fs s2 p) as [fsb [sb|eb]];
    simpl in *; subst; try done.
  by apply IH.
Qed.

(** X10: [--verbose] changes what is printed and nothing else: with either
    setting the run leaves the same file system and ends the same way, with
    the same file count or the same exception. *)
Theorem sort_verbose_only_prints a fs v :
  (main (with_verbose a v) fs).1 = (main a fs).1
  ∧ same_count (main (with_verbose a v) fs).2 (main a fs).2.
Proof.
  unfold Sortfile.main. simpl.
  destruct (select_datestr _ _) as [datestr|]; [| done].
  destruct (mkdir fs (out a)) as [fs1|e]; [| done].
  destruct (sort_loop_verbose v (verbose a) datestr (out a) fs1
              {| file_count := 0; log := info v (InfoFormat datestr) [] |}
              {| file_count := 0;
                 log := info (verbose a) (InfoFormat datestr) [] |}
              (glob fs1 (source a) "") eq_refl) as [Hfs Hr].
  destruct (Sortfile.sort_loop _ _ v _ _ _ _ _) as [fsa [sa|ea]],
           (Sortfile.sort_loop _ _ (verbose a) _ _ _ _ _) as [fsb [sb|eb]];
    simpl in *; done.
Qed.

(** ** The file count *)

Lemma sort_step_kinds V datestr dst fs st p fs' st' q :
  sort_step V datestr dst fs st p = (fs', Ok st') →
  is_Some (fs !! q) →
  is_Some (fs' !! q) ∧ is_file fs' q = is_file fs q.
Proof.
  intros Hstep [x Hx].
  destruct (sort_step_Ok _ _ _ _ _ _ _ _ _ _ Hstep) as (_ & Hf & Hd).
  unfold is_file in *. destruct x as [|d t r].
  - rewrite (Hd q Hx) in *. rewrite Hx. by split; [eexists |].
  - specialize (Hf q). rewrite Hx in *.
    destruct (fs' !! q) as [[|d' t' r']|]; try by (specialize (Hf eq_refl)).
Qed.

Lemma sort_loop_count V datestr dst fs st l fs' st' :
  Forall (λ p, is_Some (fs !! p)) l →
  sort_loop V datestr dst fs st l = (fs', Ok st') →
  file_count st' = (file_count st + length (List.filter (is_file fs) l))%nat.
Proof.
  revert fs st. induction l as [|p l IH]; intros fs st Hall; simpl.
  - intros [= _ <-]. lia.
  - apply Forall_cons in Hall as [Hp Hl].
    destruct (sort_step V datestr dst fs st p) as [fs1 [st1|e]] eqn:Hstep;
      [| done].
    intros Hrest.
    assert (Hkinds : ∀ q, q ∈ l →
              is_Some (fs1 !! q) ∧ is_file fs1 q = is_file fs q).
    { intros q Hq. eapply sort_step_kinds; [done |].
      rewrite Forall_forall in Hl. by apply Hl. }
    rewrite (IH fs1 st1); [| | done].
    + assert (List.filter (is_file fs1) l = List.filter (is_file fs) l) as ->.
      { apply List.filter_ext_in. intros q Hq%list_elem_of_In.
        by destruct (Hkinds q Hq). }
      revert Hstep. unfold Sortfile.sort_step.
      destruct (is_file fs p); simpl; [| intros [= _ <-]; lia].
      destruct (st_mtime fs p) as [t|e]; [| done].
      destruct (makedirs fs _) as [fsm|e]; [| done].
      destruct (copy2 fsm p _) as [fsc|e]; [| done].
      intros [= _ <-]. simpl. lia.
    + apply Forall_forall. intros q Hq. by destruct (Hkinds q Hq).
Qed.

Lemma glob_exists fs root ext p : p ∈ glob fs root ext → is_Some (fs !! p).
Proof.
  unfold glob. destruct (is_dir fs root); [| by intros ?%elem_of_nil].
  intros [_ Hin]%list_elem_of_filter.
  apply list_elem_of_fmap_1 in Hin as ([k x] & -> & Hkx).
  apply elem_of_map_to_list in Hkx. by eexists.
Qed.

(** X11: the number a returning run reports ("Sorted N files") is the
    number of regular files in the enumeration of the source, taken once
    the output directory exists: every regular file is counted, also one
    whose copy a later file overwrites, and no directory is. *)
Theorem sorted_count a fs fs' st :
  main a fs = (fs', Ok st) →
  ∃ fs1,
    mkdir fs (out a) = Ok fs1
    ∧ file_count st =
      length (List.filter (is_file fs1) (glob fs1 (source a) ""))
    ∧ last (log st) = Some (Summary (file_count st) (out a)).
Proof.
  unfold Sortfile.main.
  destruct (select_datestr _ _) as [datestr|]; [| done].
  destruct (mkdir fs (out a)) as [fs1|e] eqn:Hmk; [| done].
  destruct (Sortfile.sort_loop _ _ _ _ _ _ _ _) as [fs2 [st2|e]] eqn:Hl;
    [| done].
  intros [= _ <-]. exists fs1. split; [done |]. simpl.
  split; [| apply last_snoc].
  apply sort_loop_count in Hl; [done |].
  apply Forall_forall. intros p. apply glob_exists.
Qed.

(** ** A source that is not a directory *)

(** X12: a source that is not a directory (a missing one, say) is no
    error: with an accepted [groupby] and an output directory that exists
    or can be made, the run returns, having made the output directory if
    it was absent and nothing else, and reports zero files. *)
Theorem sort_missing_source a fs :
  groupby a ∈ choices →
  is_dir fs (source a) = false → source a ≠ out a →
  fs !! out a = Some Dir
  ∨ (fs !! out a = None ∧ fs !! parent (out a) = Some Dir) →
  ∃ st,
    main a fs =
    (match fs !! out a with Some _ => fs | None => <[out a := Dir]> fs end,
     Ok st)
    ∧ file_count st = 0%nat.
Proof.
  intros [datestr Hsel]%(select_datestr_choices _ (sep a)) Hd Hne Hout.
  unfold Sortfile.main. rewrite Hsel.
  destruct Hout as [Ho|[Ho Hp]]; rewrite Ho.
  - rewrite (mkdir_existing _ _ Ho). unfold glob. rewrite Hd. by eexists.
  - rewrite (mkdir_absent _ _ Ho Hp). unfold glob, is_dir.
    rewrite lookup_insert_ne by done. fold (is_dir fs (source a)).
    rewrite Hd. by eexists.
Qed.

(** ** A file that cannot be read *)

(** X13: the sort stops at the first file that cannot be read: the run
    raises an [IOError] there, the files after it are not looked at, and
    every entry present at that point (the copies already made included)
    is still there afterwards; nothing is rolled back. *)
Theorem sort_stops_at_unreadable_file V datestr dst fs st l1 p l2 fs1 st1 :
  sort_loop V datestr dst fs st l1 = (fs1, Ok st1) →
  is_file fs1 p = true → readable fs1 p = false →
  ∃ fs' e,
    sort_loop V datestr dst fs st (l1 ++ p :: l2) = (fs', Raise e)
    ∧ is_IOError e = true
    ∧ (∀ l2', sort_loop V datestr dst fs st (l1 ++ p :: l2') = (fs', Raise e))
    ∧ ∀ q x, fs1 !! q = Some x → fs' !! q = Some x.
Proof.
  intros Hl1 Hpf Hpr.
  assert (∃ fs' e, sort_step V datestr dst fs1 st1 p = (fs', Raise e)
                   ∧ ∀ q x, fs1 !! q = Some x → fs' !! q = Some x)
    as (fs' & e & Hstep & Hkeep).
  { unfold Sortfile.sort_step. rewrite Hpf. simpl.
    unfold is_file, readable, st_mtime in *.
    destruct (fs1 !! p) as [[|d t r]|] eqn:Hp; try done. subst r.
    destruct (makedirs fs1 _) as [fsm|e] eqn:Hmk; [| by eexists _, _].
    destruct (copy2 fsm p _) as [fsc|e] eqn:Hcp.
    - apply copy2_Ok in Hcp as (d' & t' & q' & _ & Hsrc & _).
      rewrite (makedirs_preserves _ _ _ _ _ Hmk Hp) in Hsrc. done.
    - exists fsm, e. split; [done |]. intros q x Hq.
      by eapply makedirs_preserves. }
  exists fs', e.
  assert (∀ l2', sort_loop V datestr dst fs st (l1 ++ p :: l2') =
                 (fs', Raise e)) as Hall.
  { intros l2'. rewrite sort_loop_app, Hl1. simpl. by rewrite Hstep. }
  split; [apply Hall |]. split; [by eapply sort_step_IOError |]. by split.
Qed.

(** ** Strings, digits and dates *)

Lemma length_append (s r : string) :
  String.length (s +:+ r) = (String.length s + String.length r)%nat.
Proof. induction s as [|c s IH]; simpl; [done | by rewrite IH]. Qed.

Lemma append_inj_length (s1 s2 r1 r2 : string) :
  String.length s1 = String.length s2 → s1 +:+ r1 = s2 +:+ r2 →
  s1 = s2 ∧ r1 = r2.
Proof.
  revert s2. induction s1 as [|c s1 IH]; intros [|c2 s2]; simpl; try done.
  intros [= Hlen] [= -> Happ]. destruct (IH s2 Hlen Happ) as [-> ->]. done.
Qed.

Lemma to_int_nonnil n :
  Z.to_int n ≠ Decimal.Pos Decimal.Nil ∧ Z.to_int n ≠ Decimal.Neg Decimal.Nil.
Proof.
  destruct n; simpl; split; intros [= H]; try done;
    by apply DecimalPos.Unsigned.to_uint_nonnil in H.
Qed.

Lemma decimal_inj n m : decimal n = decimal m → n = m.
Proof.
  intros H. apply (f_equal NilZero.int_of_string) in H. unfold decimal in H.
  rewrite !NilZero.isi in H by apply to_int_nonnil. injection H as H.
  apply (f_equal Z.of_int) in H. by rewrite !DecimalZ.of_to in H.
Qed.

Lemma digit_code n :
  nat_of_ascii (digit n) = (48 + Z.to_nat (n mod 10))%nat.
Proof.
  unfold digit. apply nat_ascii_embedding.
  pose proof (Z.mod_pos_bound n 10). lia.
Qed.

Lemma digit_inj n m : digit n = digit m → n mod 10 = m mod 10.
Proof.
  intros H. apply (f_equal nat_of_ascii) in H. rewrite !digit_code in H.
  pose proof (Z.mod_pos_bound n 10). pose proof (Z.mod_pos_bound m 10). lia.
Qed.

Lemma pad2_inj n m : 0 ≤ n < 100 → 0 ≤ m < 100 → pad2 n = pad2 m → n = m.
Proof.
  intros Hn Hm [= H1%digit_inj H2%digit_inj].
  Z.to_euclidean_division_equations. lia.
Qed.

Lemma length_pad2 n : String.length (pad2 n) = 2%nat.
Proof. done. Qed.

(** The calendar fields of a local time are a month and a day of the
    month. *)
Lemma civil_from_days_range days :
  1 ≤ (civil_from_days days).1.2 ≤ 12 ∧ 1 ≤ (civil_from_days days).2 ≤ 31.
Proof.
  unfold civil_from_days. cbv zeta.
  remember (days + 719468 - (days + 719468) / 146097 * 146097) as doe eqn:Hdoe.
  assert (0 ≤ doe ≤ 146096) as Hr
    by (subst doe; Z.to_euclidean_division_equations; lia).
  clear Hdoe.
  remember (doe - (365 * ((doe - doe / 1460 + doe / 36524 - doe / 146096) / 365)
                   + (doe - doe / 1460 + doe / 36524 - doe / 146096) / 365 / 4
                   - (doe - doe / 1460 + doe / 36524 - doe / 146096) / 365 / 100))
    as doy eqn:Hdoy.
  assert (0 ≤ doy ≤ 365) as Hy
    by (subst doy; Z.to_euclidean_division_equations; lia).
  clear Hdoy. simpl.
  destruct ((5 * doy + 2) / 153 <? 10) eqn:E.
  - apply Z.ltb_lt in E. Z.to_euclidean_division_equations. lia.
  - apply Z.ltb_ge in E. Z.to_euclidean_division_equations. lia.
Qed.

Lemma fromtimestamp_range t :
  1 ≤ month (fromtimestamp t) ≤ 12 ∧ 1 ≤ day (fromtimestamp t) ≤ 31.
Proof.
  unfold Sortfile.fromtimestamp.
  pose proof (civil_from_days_range ((t + utcoffset t) / 86400)) as H.
  by destruct (civil_from_days _) as [[y m] d].
Qed.

Lemma strftime_slash dt : strftime "/" dt = "/".
Proof. reflexivity. Qed.

(** X14: for a separator without [%], two files are sent to the same
    dated subpath exactly when their modification times, read as local
    time, fall in the same year ([y]), the same year and month ([ym]), or
    on the same day ([ymd]), whatever the time of day. *)
Theorem same_subpath_iff_same_date sep t1 t2 :
  percent_free sep = true →
  let dt1 := fromtimestamp t1 in
  let dt2 := fromtimestamp t2 in
  (strftime "%Y/" dt1 = strftime "%Y/" dt2 ↔ year dt1 = year dt2)
  ∧ (strftime ("%Y" +:+ sep +:+ "%m/") dt1 =
     strftime ("%Y" +:+ sep +:+ "%m/") dt2
     ↔ year dt1 = year dt2 ∧ month dt1 = month dt2)
  ∧ (strftime ("%Y" +:+ sep +:+ "%m" +:+ sep +:+ "%d/") dt1 =
     strftime ("%Y" +:+ sep +:+ "%m" +:+ sep +:+ "%d/") dt2
     ↔ year dt1 = year dt2 ∧ month dt1 = month dt2 ∧ day dt1 = day dt2).
Proof.
  intros Hsep dt1 dt2.
  destruct (fromtimestamp_range t1) as [Hm1 Hd1].
  destruct (fromtimestamp_range t2) as [Hm2 Hd2].
  fold dt1 in Hm1, Hd1. fold dt2 in Hm2, Hd2.
  assert (Hy : ∀ r1 r2 : string,
            String.length r1 = String.length r2 →
            decimal (year dt1) +:+ r1 = decimal (year dt2) +:+ r2 →
            year dt1 = year dt2 ∧ r1 = r2).
  { intros r1 r2 Hlen Heq.
    assert (String.length (decimal (year dt1)) =
            String.length (decimal (year dt2))) as Hl.
    { apply (f_equal String.length) in Heq. rewrite !length_append in Heq. lia. }
    destruct (append_inj_length _ _ _ _ Hl Heq) as [Hd ->].
    by apply decimal_inj in Hd. }
  assert (Hcut : ∀ s r1 r2 : string, s +:+ r1 = s +:+ r2 → r1 = r2).
  { intros s r1 r2 Heq. by destruct (append_inj_length s s r1 r2 eq_refl Heq). }
  assert (Hp : ∀ n m (r1 r2 : string), 0 ≤ n < 100 → 0 ≤ m < 100 →
            pad2 n +:+ r1 = pad2 m +:+ r2 → n = m ∧ r1 = r2).
  { intros n m r1 r2 Hn Hm Heq.
    destruct (append_inj_length (pad2 n) (pad2 m) r1 r2 eq_refl Heq) as [H ->].
    split; [by apply pad2_inj | done]. }
  change "%Y/" with ("%Y" +:+ "/"). change "%m/" with ("%m" +:+ "/").
  change "%d/" with ("%d" +:+ "/").
  split; [| split].
  - rewrite !strftime_Y, !strftime_slash. split; [| intros H; by rewrite H].
    intros Heq. by destruct (Hy _ _ eq_refl Heq).
  - rewrite !strftime_Y, !(strftime_literal _ sep), !strftime_m,
      !strftime_slash by done.
    split; [| intros [H1 H2]; by rewrite H1, H2].
    intros Heq. apply Hy in Heq as [Hyear Heq];
      [| by rewrite !length_append].
    apply Hcut in Heq.
    apply Hp in Heq as [Hmonth _]; [done | lia | lia].
  - rewrite !strftime_Y, !(strftime_literal _ sep), !strftime_m,
      !(strftime_literal _ sep), !strftime_d, !strftime_slash by done.
    split; [| intros (H1 & H2 & H3); by rewrite H1, H2, H3].
    intros Heq. apply Hy in Heq as [Hyear Heq];
      [| by rewrite !length_append].
    apply Hcut in Heq. apply Hp in Heq as [Hmonth Heq]; [| lia | lia].
    apply Hcut in Heq.
    apply Hp in Heq as [Hday _]; [done | lia | lia].
Qed.

(** ** One directory per file *)

Lemma append_cons c (s r : string) : String c s +:+ r = String c (s +:+ r).
Proof. reflexivity. Qed.

Lemma append_assoc (s1 s2 s3 : string) :
  s1 +:+ (s2 +:+ s3) = (s1 +:+ s2) +:+ s3.
Proof.
  induction s1 as [|c s1 IH]; [done |]. by rewrite !append_cons, IH.
Qed.

Lemma append_nil (s : string) : s +:+ "" = s.
Proof. induction s as [|c s IH]; [done |]. by rewrite append_cons, IH. Qed.

Lemma slash_free_app s r :
  slash_free (s +:+ r) = slash_free s && slash_free r.
Proof.
  induction s as [|c s IH]; simpl; [done |]. by rewrite IH, andb_assoc.
Qed.

Lemma digit_not_slash n : digit n ≠ "/"%char.
Proof.
  intros H. apply (f_equal nat_of_ascii) in H. rewrite digit_code in H.
  change (nat_of_ascii "/") with 47%nat in H. lia.
Qed.

Lemma slash_free_pad2 n : slash_free (pad2 n) = true.
Proof.
  unfold pad2. cbn [slash_free].
  rewrite !bool_decide_eq_false_2 by apply digit_not_slash. done.
Qed.

Lemma slash_free_uint d : slash_free (NilEmpty.string_of_uint d) = true.
Proof. induction d; simpl; by rewrite ?IHd. Qed.

Lemma slash_free_decimal n : slash_free (decimal n) = true.
Proof.
  unfold decimal, NilZero.string_of_int, NilZero.string_of_uint.
  destruct (Z.to_int n) as [d|d]; destruct d; simpl;
    by rewrite ?slash_free_uint.
Qed.

(** A number in decimal starts with a digit or a sign. *)
Lemma decimal_head n :
  ∃ c r, decimal n = String c r ∧ c ≠ "."%char.
Proof.
  unfold decimal, NilZero.string_of_int, NilZero.string_of_uint.
  destruct (Z.to_int n) as [d|d]; destruct d; simpl; by eexists _, _.
Qed.

Lemma split_slash_dir s :
  slash_free s = true → split_slash (s +:+ "/") = [s; ""].
Proof.
  induction s as [|c s IH]; simpl; [done |].
  intros [Hc Hs]%andb_prop. apply negb_true_iff, bool_decide_eq_false in Hc.
  rewrite decide_False by done. by rewrite IH.
Qed.

Lemma parts_dir c r :
  slash_free (String c r) = true → c ≠ "."%char →
  parts (String c r +:+ "/") = [String c r].
Proof.
  intros Hs Hc. unfold parts. rewrite split_slash_dir by done. simpl.
  destruct (Ascii.eqb_spec c "."); [done |]. by destruct r.
Qed.

(** X15: with a separator that has neither [%] nor [/] (the default [-],
    say) every file goes exactly one directory below the output directory:
    its destination is [out / dir / name] where [dir] is the year, the
    year and two-digit month, or the year, month and two-digit day of its
    local modification date, joined by the separator. *)
Theorem plain_separator_one_directory sep dst srcfile t :
  percent_free sep = true → slash_free sep = true →
  let dt := fromtimestamp t in
  destination "%Y/" dst srcfile t = dst ++ [decimal (year dt); name srcfile]
  ∧ destination ("%Y" +:+ sep +:+ "%m/") dst srcfile t =
    dst ++ [decimal (year dt) +:+ sep +:+ pad2 (month dt); name srcfile]
  ∧ destination ("%Y" +:+ sep +:+ "%m" +:+ sep +:+ "%d/") dst srcfile t =
    dst ++ [decimal (year dt) +:+ sep +:+ pad2 (month dt) +:+ sep
            +:+ pad2 (day dt); name srcfile].
Proof.
  intros Hp Hs dt. unfold Sortfile.destination, joinpath. fold dt.
  destruct (decimal_head (year dt)) as (c & r & Hy & Hc).
  pose proof (slash_free_decimal (year dt)) as Hsy.
  pose proof append_assoc as Hassoc. pose proof append_nil as Hnil.
  assert (Hdir : ∀ rest : string, slash_free rest = true →
            parts (decimal (year dt) +:+ (rest +:+ "/")) =
            [decimal (year dt) +:+ rest]).
  { intros rest Hrest. rewrite (Hassoc (decimal (year dt)) rest "/").
    assert (slash_free (decimal (year dt) +:+ rest) = true) as Hfree
      by (by rewrite slash_free_app, Hsy, Hrest).
    rewrite Hy in *. apply parts_dir; done. }
  change "%Y/" with ("%Y" +:+ "/"). change "%m/" with ("%m" +:+ "/").
  change "%d/" with ("%d" +:+ "/").
  split; [| split].
  - rewrite strftime_Y, strftime_slash.
    pose proof (Hdir "" eq_refl) as H. rewrite Hnil in H.
    change ("" +:+ "/") with "/" in H. rewrite H. by rewrite <- app_assoc.
  - rewrite strftime_Y, (strftime_literal _ sep), strftime_m, strftime_slash
      by done.
    rewrite (Hassoc sep (pad2 (month dt)) "/"), Hdir.
    + by rewrite <- app_assoc.
    + by rewrite slash_free_app, Hs, slash_free_pad2.
  - rewrite strftime_Y, (strftime_literal _ sep), strftime_m,
      (strftime_literal _ sep), strftime_d, strftime_slash by done.
    rewrite (Hassoc sep (pad2 (day dt)) "/").
    rewrite (Hassoc (pad2 (month dt)) (sep +:+ pad2 (day dt)) "/").
    rewrite (Hassoc sep (pad2 (month dt) +:+ (sep +:+ pad2 (day dt))) "/").
    rewrite Hdir.
    + by rewrite <- app_assoc.
    + by rewrite !slash_free_app, Hs, !slash_free_pad2.
Qed.

(** ** What a whole run leaves in the output directory *)

(** The slug of a plain separator is one directory name: no ["/"] inside,
    and it starts with the year, so it is neither empty nor ["."]. *)
Lemma strftime_dir g sep datestr dt :
  percent_free sep = true → slash_free sep = true →
  select_datestr g sep = Some datestr →
  ∃ c r, strftime datestr dt = String c r +:+ "/"
         ∧ slash_free (String c r) = true ∧ c ≠ "."%char.
Proof.
  intros Hp Hs Hsel.
  destruct (decimal_head (year dt)) as (c & r & Hy & Hc).
  pose proof (slash_free_decimal (year dt)) as Hsy.
  unfold select_datestr in Hsel.
  destruct (decide (g = "y")); [injection Hsel as <- |].
  { exists c, r. change "%Y/" with ("%Y" +:+ "/").
    rewrite strftime_Y, strftime_slash, <- Hy. done. }
  destruct (decide (g = "ym")); [injection Hsel as <- |].
  { exists c, ((r +:+ sep) +:+ pad2 (month dt)).
    change "%m/" with ("%m" +:+ "/").
    rewrite strftime_Y, (strftime_literal _ sep), strftime_m, strftime_slash
      by done.
    rewrite !append_assoc, Hy. split; [done |]. split; [| done].
    change (slash_free ((String c r +:+ sep) +:+ pad2 (month dt)) = true).
    by rewrite <- Hy, !slash_free_app, Hsy, Hs, slash_free_pad2. }
  destruct (decide (g = "ymd")); [injection Hsel as <- | done].
  exists c, ((((r +:+ sep) +:+ pad2 (month dt)) +:+ sep) +:+ pad2 (day dt)).
  change "%d/" with ("%d" +:+ "/").
  rewrite strftime_Y, (strftime_literal _ sep), strftime_m,
    (strftime_literal _ sep), strftime_d, strftime_slash by done.
  rewrite !append_assoc, Hy. split; [done |]. split; [| done].
  change (slash_free ((((String c r +:+ sep) +:+ pad2 (month dt)) +:+ sep)
                      +:+ pad2 (day dt)) = true).
  by rewrite <- Hy, !slash_free_app, Hsy, Hs, !slash_free_pad2.
Qed.

Lemma destination_two_below g sep datestr dst p t :
  percent_free sep = true → slash_free sep = true →
  select_datestr g sep = Some datestr →
  ∃ dir, destination datestr dst p t = joinpath (joinpath dst dir) (name p).
Proof.
  intros Hp Hs Hsel. unfold Sortfile.destination.
  destruct (strftime_dir g sep datestr (fromtimestamp t) Hp Hs Hsel)
    as (c & r & -> & Hfree & Hc).
  exists (String c r). by rewrite parts_dir.
Qed.

(** Below an existing directory, [makedirs] of a child makes that child
    or nothing. *)
Lemma makedirs_child fs (d : path) n fs' :
  fs !! d = Some Dir → makedirs fs (joinpath d n) = Ok fs' →
  fs' = fs ∨ fs' = <[joinpath d n := Dir]> fs.
Proof.
  intros Hd. unfold makedirs.
  destruct (length (joinpath d n)); simpl; unfold os_mkdir;
    rewrite parent_joinpath, Hd;
    (destruct (fs !! joinpath d n) as [x|];
      [destruct (is_dir fs (joinpath d n)); [intros [= <-]; by left | done]
      | intros [= <-]; by right]).
Qed.

(** With destinations two levels below [dst], the directories at or below
    [dst] stay within one level of it. *)
Lemma sort_step_shallow V datestr (dst : path) fs st p fs' st' :
  (∀ t, ∃ dir, destination datestr dst p t =
               joinpath (joinpath dst dir) (name p)) →
  fs !! dst = Some Dir →
  (∀ q : path, fs !! q = Some Dir → dst `prefix_of` q →
               (length q ≤ S (length dst))%nat) →
  sort_step V datestr dst fs st p = (fs', Ok st') →
  ∀ q : path, fs' !! q = Some Dir → dst `prefix_of` q →
              (length q ≤ S (length dst))%nat.
Proof.
  intros Hform Hd Hinv. unfold Sortfile.sort_step.
  destruct (negb (is_file fs p)); [by intros [= <- _] |].
  destruct (st_mtime fs p) as [t|e]; [| done].
  fold (destination datestr dst p t).
  destruct (Hform t) as [dir ->]. rewrite parent_joinpath.
  destruct (makedirs fs _) as [fs1|e] eqn:Hmk; [| done].
  destruct (copy2 fs1 p _) as [fs2|e] eqn:Hcp; [| done].
  intros [= <- _] q Hq Hpre.
  apply copy2_Ok in Hcp as (c & t' & q' & _ & _ & _ & _ & ->).
  destruct (decide (q' = q)) as [->|Hne];
    [by rewrite lookup_insert_eq in Hq |].
  rewrite lookup_insert_ne in Hq by done.
  destruct (makedirs_child _ _ _ _ Hd Hmk) as [->| ->]; [by apply Hinv |].
  destruct (decide (joinpath dst dir = q)) as [<-|Hne'].
  - unfold joinpath. rewrite length_app. simpl. lia.
  - rewrite lookup_insert_ne in Hq by done. by apply Hinv.
Qed.

Lemma sort_loop_shallow V datestr (dst : path) fs st l fs' st' :
  (∀ p t, ∃ dir, destination datestr dst p t =
                 joinpath (joinpath dst dir) (name p)) →
  fs !! dst = Some Dir →
  (∀ q : path, fs !! q = Some Dir → dst `prefix_of` q →
               (length q ≤ S (length dst))%nat) →
  sort_loop V datestr dst fs st l = (fs', Ok st') →
  ∀ q : path, fs' !! q = Some Dir → dst `prefix_of` q →
              (length q ≤ S (length dst))%nat.
Proof.
  intros Hform. revert fs st.
  induction l as [|p l IH]; intros fs st Hd Hinv; simpl.
  - by intros [= <- _].
  - destruct (sort_step V datestr dst fs st p) as [fs1 [st1|e]] eqn:Hstep;
      [| done].
    apply IH.
    + by apply (sort_step_Ok _ _ _ _ _ _ _ _ _ _ Hstep).
    + by eapply sort_step_shallow.
Qed.

Lemma last_sent_snoc_hit datestr dst fs0 l (p d : path) :
  target datestr dst fs0 p = Some d →
  last_sent datestr dst fs0 (l ++ [p]) d = Some p.
Proof.
  intros H. unfold Sortfile.last_sent. rewrite List.filter_app. simpl.
  rewrite bool_decide_eq_true_2 by done. apply last_snoc.
Qed.

Lemma last_sent_snoc_miss datestr dst fs0 l (p d : path) :
  target datestr dst fs0 p ≠ Some d →
  last_sent datestr dst fs0 (l ++ [p]) d = last_sent datestr dst fs0 l d.
Proof.
  intros H. unfold Sortfile.last_sent. rewrite List.filter_app. simpl.
  rewrite bool_decide_eq_false_2 by done. by rewrite app_nil_r.
Qed.

Lemma last_sent_target datestr dst fs0 l (p d : path) :
  last_sent datestr dst fs0 l d = Some p →
  target datestr dst fs0 p = Some d.
Proof.
  unfold Sortfile.last_sent. intros H%last_Some_elem_of.
  apply list_elem_of_In, List.filter_In in H as [_ H].
  by apply bool_decide_eq_true in H.
Qed.

(** The loop over a snapshot taken outside [dst]: when no destination is a
    directory at the end, each holds the last file sent to it. *)
Lemma sort_loop_last V datestr (dst : path) fs0 st l :
  fs0 !! dst = Some Dir →
  Forall (λ p, is_Some (fs0 !! p)) l →
  (∀ p, p ∈ l → is_file fs0 p = true → ¬ dst `prefix_of` p) →
  ∀ fs' st',
    sort_loop V datestr dst fs0 st l = (fs', Ok st') →
    (∀ p d, p ∈ l → target datestr dst fs0 p = Some d →
            is_dir fs' d = false) →
    ∀ p d, p ∈ l → target datestr dst fs0 p = Some d →
      ∃ p', last_sent datestr dst fs0 l d = Some p' ∧ fs' !! d = fs0 !! p'.
Proof.
  intros Hd0.
  induction l as [|x l IH] using rev_ind;
    intros Hex Hout fs' st' Hloop Hnd p d Hp Ht.
  { by apply elem_of_nil in Hp. }
  apply Forall_app in Hex as [Hexl Hexx]. rewrite Forall_singleton in Hexx.
  rewrite sort_loop_app in Hloop.
  destruct (sort_loop V datestr dst fs0 st l) as [fs1 [st1|e]] eqn:Hl;
    [| done].
  simpl in Hloop.
  destruct (sort_step V datestr dst fs1 st1 x) as [fs2 [st2|e]] eqn:Hstep;
    [| done].
  injection Hloop as -> ->.
  destruct (sort_loop_Ok _ _ _ _ _ _ _ _ _ _ Hl) as (_ & _ & Hdirs1).
  destruct (sort_step_Ok _ _ _ _ _ _ _ _ _ _ Hstep) as (_ & _ & Hdirs2).
  pose proof (sort_loop_elsewhere _ _ _ _ _ _ _ _ Hd0 Hl) as Hout1.
  assert (Hnd1 : ∀ q : path, is_dir fs' q = false → is_dir fs1 q = false).
  { intros q Hq. unfold is_dir in *.
    destruct (fs1 !! q) as [[|c t r]|] eqn:Hq1; try done.
    by rewrite (Hdirs2 q Hq1) in Hq. }
  assert (IHl : ∀ p d, p ∈ l → target datestr dst fs0 p = Some d →
            ∃ p', last_sent datestr dst fs0 l d = Some p'
                  ∧ fs1 !! d = fs0 !! p').
  { assert (Houtl : ∀ q, q ∈ l → is_file fs0 q = true → ¬ dst `prefix_of` q)
      by (intros q Hq; apply Hout; apply elem_of_app; by left).
    apply (IH Hexl Houtl fs1 st1 eq_refl).
    intros q dq Hq Hdq. apply Hnd1. apply (Hnd q dq); [| done].
    apply elem_of_app. by left. }
  assert (x ∈ l ++ [x]) as Hx
    by (apply elem_of_app; right; by apply list_elem_of_singleton).
  destruct Hexx as [nx Hnx]. destruct nx as [|c t r].
  - (* a directory: skipped *)
    assert (target datestr dst fs0 x = None) as Htx
      by (unfold Sortfile.target; by rewrite Hnx).
    revert Hstep. unfold Sortfile.sort_step, is_file.
    rewrite (Hdirs1 x Hnx). simpl. intros [= <- _].
    rewrite last_sent_snoc_miss by (by rewrite Htx).
    apply (IHl p d); [| done].
    apply elem_of_app in Hp as [Hp|Hp%list_elem_of_singleton]; [done |].
    subst p. by rewrite Htx in Ht.
  - (* a regular file: copied to its destination *)
    assert (¬ dst `prefix_of` x) as Hxout
      by (apply Hout; [done | unfold is_file; by rewrite Hnx]).
    assert (fs1 !! x = Some (File c t r)) as Hx1
      by (by rewrite (Hout1 x Hxout)).
    set (dx := destination datestr dst x t).
    assert (target datestr dst fs0 x = Some dx) as Htx
      by (unfold Sortfile.target; by rewrite Hnx).
    revert Hstep. unfold Sortfile.sort_step, is_file, st_mtime.
    rewrite Hx1. simpl. fold (destination datestr dst x t). fold dx.
    destruct (makedirs fs1 (parent dx)) as [fs2|e] eqn:Hmk; [| done].
    destruct (copy2 fs2 x dx) as [fs3|e] eqn:Hcp; [| done].
    intros [= <- _].
    apply copy2_Ok in Hcp as (c' & t' & q' & Hq' & Hsrc & _ & _ & ->).
    rewrite (makedirs_preserves _ _ _ _ _ Hmk Hx1) in Hsrc.
    injection Hsrc as <- <- ->.
    assert (q' = dx) as ->.
    { destruct (is_dir fs2 dx) eqn:Hdx; [| done]. exfalso.
      pose proof (Hnd x dx Hx Htx) as Hfin. unfold is_dir in Hfin, Hdx.
      rewrite lookup_insert_ne in Hfin by (subst q'; apply joinpath_ne).
      by rewrite Hdx in Hfin. }
    destruct (decide (d = dx)) as [->|Hne].
    + exists x. split; [by apply last_sent_snoc_hit |].
      by rewrite lookup_insert_eq, Hnx.
    + rewrite last_sent_snoc_miss by (rewrite Htx; congruence).
      assert (p ∈ l) as Hpl.
      { apply elem_of_app in Hp as [Hp|Hp%list_elem_of_singleton]; [done |].
        subst p. congruence. }
      destruct (IHl p d Hpl Ht) as (p' & Hlast & Hfs1).
      exists p'. split; [done |]. rewrite lookup_insert_ne by done.
      pose proof (last_sent_target _ _ _ _ _ _ Hlast) as Htp'.
      unfold Sortfile.target in Htp'.
      destruct (fs0 !! p') as [[|c1 t1 r1]|] eqn:Hp'; try done.
      by rewrite (makedirs_preserves _ _ _ _ _ Hmk Hfs1).
Qed.

(** X17: a returning run with a separator free of [%] and [/], into an
    output directory with nothing below it: at the end, the destination
    [out / dir / name] of every regular file enumerated holds the bytes
    and the modification time of the last enumerated file sent to that
    destination (the file itself, unless a later one shares its date
    directory and base name).  No file is lost in any other way. *)
Theorem every_file_is_sorted a fs fs' st :
  percent_free (sep a) = true → slash_free (sep a) = true →
  (∀ q : path, out a `prefix_of` q → q ≠ out a → fs !! q = None) →
  main a fs = (fs', Ok st) →
  ∃ datestr fs1,
    select_datestr (groupby a) (sep a) = Some datestr
    ∧ mkdir fs (out a) = Ok fs1
    ∧ ∀ p d,
        p ∈ glob fs1 (source a) "" →
        target datestr (out a) fs p = Some d →
        ∃ p', last_sent datestr (out a) fs (glob fs1 (source a) "") d = Some p'
              ∧ fs' !! d = fs !! p'.
Proof.
  intros Hpf Hsf Hempty. unfold Sortfile.main.
  destruct (select_datestr _ _) as [datestr|] eqn:Hsel; [| done].
  destruct (mkdir fs (out a)) as [fs1|e] eqn:Hmk; [| done].
  destruct (Sortfile.sort_loop _ _ _ _ _ _ _ _) as [fs2 [st2|e]] eqn:Hl;
    [| done].
  intros [= <- _]. exists datestr, fs1. split; [done |]. split; [done |].
  set (l := glob fs1 (source a) "") in *.
  destruct (mkdir_Ok _ _ _ Hmk) as [Hd1 Hwas].
  assert (Hsame : ∀ q : path, q ≠ out a → fs1 !! q = fs !! q)
    by (intros q Hq; by eapply mkdir_elsewhere).
  assert (Htarget : ∀ q, target datestr (out a) fs1 q =
                         target datestr (out a) fs q).
  { intros q. unfold Sortfile.target.
    destruct (decide (q = out a)) as [->|Hq]; [| by rewrite Hsame].
    rewrite Hd1. by destruct Hwas as [[-> _]|[-> _]]. }
  assert (Hlast : ∀ d, last_sent datestr (out a) fs1 l d =
                       last_sent datestr (out a) fs l d).
  { intros d. unfold Sortfile.last_sent. f_equal.
    apply List.filter_ext. intros q. by rewrite Htarget. }
  assert (Hempty1 : ∀ q : path, out a `prefix_of` q → q ≠ out a →
                                fs1 !! q = None).
  { intros q Hq Hne. rewrite Hsame by done. by apply Hempty. }
  assert (Hform : ∀ p t, ∃ dir, destination datestr (out a) p t =
                                joinpath (joinpath (out a) dir) (name p))
    by (intros p t; by eapply destination_two_below).
  intros p d Hp Ht. rewrite <- Htarget in Ht. rewrite <- Hlast.
  destruct (sort_loop_last (verbose a) datestr (out a) fs1
              {| file_count := 0;
                 log := info (verbose a) (InfoFormat datestr) [] |} l Hd1)
    with (fs' := fs2) (st' := st2) (p := p) (d := d)
    as (p' & Hp' & Hfs2); try done.
  - apply Forall_forall. intros q Hq. by eapply glob_exists.
  - intros q _ Hq Hpre. unfold is_file in Hq.
    destruct (decide (q = out a)) as [->|Hne]; [by rewrite Hd1 in Hq |].
    by rewrite (Hempty1 q Hpre Hne) in Hq.
  - intros q dq _ Hdq. unfold Sortfile.target in Hdq.
    destruct (fs1 !! q) as [[|c t r]|]; try done. injection Hdq as <-.
    destruct (Hform q t) as [dir Hdest].
    unfold is_dir. destruct (fs2 !! destination _ _ _ _) as [[|c1 t1 r1]|] eqn:Hx;
      try done.
    assert (length (destination datestr (out a) q t) ≤ S (length (out a)))%nat
      as Hlen.
    { eapply (sort_loop_shallow _ _ _ _ _ _ _ _ Hform Hd1); [| done | done |].
      - intros q' Hq' Hpre. destruct (decide (q' = out a)) as [->|Hne]; [lia |].
        by rewrite (Hempty1 q' Hpre Hne) in Hq'.
      - apply destination_below. }
    rewrite Hdest in Hlen. unfold joinpath in Hlen.
    rewrite !length_app in Hlen. simpl in Hlen. lia.
  - exists p'. split; [done |]. rewrite Hfs2.
    pose proof (last_sent_target _ _ _ _ _ _ Hp') as Htp'.
    unfold Sortfile.target in Htp'. apply Hsame. intros ->.
    by rewrite Hd1 in Htp'.
Qed.

End Runs.

(** ** The theorems at work on the dated tree *)

Import Examples.

Lemma dated_run :
  Sortfile.main utc no_directive sort_args dated_tree =
  (dated_sorted, Ok sorted_state).
Proof. by_evaluation. Qed.

Lemma dated_locked_first :
  Sortfile.sort_loop utc no_directive false "%Y.%m.%d/" ["o"] dated_locked
    (sorted 0) [["s"; "y.txt"]] =
  (dated_locked_after_y, Ok (sorted 1)).
Proof. by_evaluation. Qed.


Lemma sorted_count_witness :
  ∃ fs1,
    mkdir dated_tree (out sort_args) = Ok fs1
    ∧ file_count sorted_state =
      length (List.filter (is_file fs1) (glob fs1 (source sort_args) ""))
    ∧ last (log sorted_state) =
      Some (Summary (file_count sorted_state) (out sort_args)).
Proof.
  exact (sorted_count utc no_directive sort_args dated_tree dated_sorted
           sorted_state dated_run).
Defined.

Lemma sort_missing_source_witness :
  ∃ st,
    Sortfile.main utc no_directive sort_nowhere dated_tree =
    (match dated_tree !! out sort_nowhere with
     | Some _ => dated_tree
     | None => <[out sort_nowhere := Dir]> dated_tree
     end, Ok st)
    ∧ file_count st = 0%nat.
Proof.
  apply (sort_missing_source utc no_directive sort_nowhere dated_tree).
  - unfold choices. simpl. rewrite !elem_of_cons. auto.
  - vm_compute. reflexivity.
  - discriminate.
  - left. vm_compute. reflexivity.
Defined.

Lemma sort_stops_at_unreadable_file_witness :
  ∃ fs' e,
    Sortfile.sort_loop utc no_directive false "%Y.%m.%d/" ["o"] dated_locked
      (sorted 0) ([["s"; "y.txt"]] ++ ["s"; "x.txt"] :: [["s"; "b"; "x.txt"]]) =
    (fs', Raise e)
    ∧ is_IOError e = true
    ∧ (∀ l2',
         Sortfile.sort_loop utc no_directive false "%Y.%m.%d/" ["o"]
           dated_locked (sorted 0)
           ([["s"; "y.txt"]] ++ ["s"; "x.txt"] :: l2') =
         (fs', Raise e))
    ∧ ∀ q x, dated_locked_after_y !! q = Some x → fs' !! q = Some x.
Proof.
  apply (sort_stops_at_unreadable_file utc no_directive false "%Y.%m.%d/"
           ["o"] dated_locked (sorted 0) [["s"; "y.txt"]] ["s"; "x.txt"]
           [["s"; "b"; "x.txt"]] dated_locked_after_y (sorted 1)
           dated_locked_first).
  - vm_compute. reflexivity.
  - vm_compute. reflexivity.
Defined.

Lemma same_subpath_iff_same_date_witness :
  percent_free "." = true
  ∧ (Sortfile.strftime no_directive "%Y.%m.%d/"
       (Sortfile.fromtimestamp utc 1609545600) =
     Sortfile.strftime no_directive "%Y.%m.%d/"
       (Sortfile.fromtimestamp utc 1609549200)
     ↔ year (Sortfile.fromtimestamp utc 1609545600) =
       year (Sortfile.fromtimestamp utc 1609549200)
       ∧ month (Sortfile.fromtimestamp utc 1609545600) =
         month (Sortfile.fromtimestamp utc 1609549200)
       ∧ day (Sortfile.fromtimestamp utc 1609545600) =
         day (Sortfile.fromtimestamp utc 1609549200)).
Proof.
  split; [reflexivity |].
  destruct (same_subpath_iff_same_date utc no_directive "." 1609545600
              1609549200 eq_refl) as (_ & _ & Hymd).
  exact Hymd.
Defined.

Lemma plain_separator_one_directory_witness :
  percent_free "-" = true ∧ slash_free "-" = true
  ∧ Sortfile.destination utc no_directive "%Y-%m/" ["o"] ["s"; "y.txt"]
      1625140800 =
    ["o"; "2021-07"; "y.txt"].
Proof.
  split; [reflexivity |]. split; [reflexivity |].
  destruct (plain_separator_one_directory utc no_directive "-" ["o"]
              ["s"; "y.txt"] 1625140800 eq_refl eq_refl) as (_ & Hym & _).
  exact Hym.
Defined.

Lemma every_file_is_sorted_witness :
  Sortfile.main utc no_directive sort_args dated_tree =
  (dated_sorted, Ok sorted_state)
  ∧ dated_sorted !! (["o"; "2021.01.02"; "x.txt"] : path) =
    dated_tree !! (["s"; "b"; "x.txt"] : path)
  ∧ dated_sorted !! (["o"; "2021.07.01"; "y.txt"] : path) =
    dated_tree !! (["s"; "y.txt"] : path).
Proof.
  destruct (every_file_is_sorted utc no_directive sort_args dated_tree
              dated_sorted sorted_state) as (datestr & fs1 & Hsel & Hmk & Hall).
  - reflexivity.
  - reflexivity.
  - apply nothing_belowb_spec. vm_compute. reflexivity.
  - exact dated_run.
  - injection Hsel as <-.
    assert (mkdir dated_tree (out sort_args) = Ok dated_tree) as Hmk'
      by by_evaluation.
    rewrite Hmk' in Hmk. injection Hmk as <-.
    assert (glob dated_tree (source sort_args) "" =
            [["s"; "y.txt"]; ["s"; "x.txt"]; ["s"; "b"; "x.txt"]; ["s"; "b"]])
      as Hglob by (vm_compute; reflexivity).
    rewrite Hglob in Hall.
    split; [exact dated_run |]. split.
    + destruct (Hall ["s"; "x.txt"] ["o"; "2021.01.02"; "x.txt"])
        as (p' & Hlast & Hnode).
      * rewrite !elem_of_cons. auto.
      * vm_compute. reflexivity.
      * vm_compute in Hlast. injection Hlast as <-. exact Hnode.
    + destruct (Hall ["s"; "y.txt"] ["o"; "2021.07.01"; "y.txt"])
        as (p' & Hlast & Hnode).
      * rewrite !elem_of_cons. auto.
      * vm_compute. reflexivity.
      * vm_compute in Hlast. injection Hlast as <-. exact Hnode.
Defined.

End SortfileMore.

(* ===================================================================== *)
(** * An output path that is a regular file                              *)
(* ===================================================================== *)

Module OutputMore.
Import FS FSFacts.

Section Both.

Variable sha256 : bytes → bytes.
Variable utcoffset : Z → Z.
Variable platform_directive : ascii → Sortfile.datetime → string.

Lemma mkdir_on_file fs (p : path) x t r :
  fs !! p = Some (File x t r) → mkdir fs p = Raise FileExistsError.
Proof.
  intros Hp. unfold mkdir, os_mkdir, is_dir. by rewrite Hp.
Qed.

(** X16: [exist_ok=True] forgives an existing directory only.  When the
    output path is a regular file, either tool raises an [IOError] and
    leaves the file system as it was: nothing is copied and the file is
    not replaced.  The error is [FileExistsError] for sortfile (given an
    accepted [groupby]) and for dedup whenever every regular file of the
    sources can be read. *)
Theorem output_path_is_a_file
    (da : Dedup.args) (sa : Sortfile.args) (fs : filesystem) :
  (∀ x t r, fs !! Dedup.out da = Some (File x t r) →
     ∃ e, Dedup.main sha256 da fs = (fs, Raise e) ∧ is_IOError e = true
          ∧ (Forall (λ p, readable fs p = true) (Dedup.candidates fs da) →
             e = FileExistsError))
  ∧ (∀ x t r, Sortfile.groupby sa ∈ Sortfile.choices →
       fs !! Sortfile.out sa = Some (File x t r) →
       Sortfile.main utcoffset platform_directive sa fs =
       (fs, Raise FileExistsError)).
Proof.
  split.
  - intros x t r Ho. unfold Dedup.main.
    destruct (Dedup.build _ _ _ _ _ _) as [st0|e] eqn:Hb.
    + rewrite (mkdir_on_file _ _ _ _ _ Ho). by eexists.
    + exists e. split; [done |].
      rewrite DedupFacts.build_candidates in Hb. split.
      * by eapply DedupFacts.scan_IOError.
      * intros Hread.
        pose proof (DedupFacts.candidates_regular fs da) as Hreg.
        destruct (DedupFacts.scan_succeeds sha256 (Dedup.verbose da) fs
                    (Dedup.candidates fs da)) as [st0 Hst0].
        { rewrite Forall_forall in *. intros p Hp.
          split; [by apply Hreg | by apply Hread]. }
        by rewrite Hst0 in Hb.
  - intros x t r
      [datestr Hsel]%(SortfileFacts.select_datestr_choices _ (Sortfile.sep sa))
      Ho.
    unfold Sortfile.main. by rewrite Hsel, (mkdir_on_file _ _ _ _ _ Ho).
Qed.

End Both.

Import Examples.

Lemma output_path_is_a_file_witness :
  tree !! Dedup.out dedup_onto_file = Some (File bytes_A 10 true)
  ∧ Dedup.main plain_digest dedup_onto_file tree =
    (tree, Raise FileExistsError)
  ∧ dated_tree !! Sortfile.out sort_onto_file =
    Some (File bytes_A 1609545600 true)
  ∧ Sortfile.main utc no_directive sort_onto_file dated_tree =
    (dated_tree, Raise FileExistsError).
Proof.
  assert (tree !! Dedup.out dedup_onto_file = Some (File bytes_A 10 true))
    as Hd by (vm_compute; reflexivity).
  assert (dated_tree !! Sortfile.out sort_onto_file =
          Some (File bytes_A 1609545600 true))
    as Hs by (vm_compute; reflexivity).
  destruct (output_path_is_a_file plain_digest utc no_directive
              dedup_onto_file sort_onto_file tree) as [Hdedup _].
  destruct (output_path_is_a_file plain_digest utc no_directive
              dedup_onto_file sort_onto_file dated_tree) as [_ Hsort].
  destruct (Hdedup _ _ _ Hd) as (e & Hrun & _ & He).
  split; [exact Hd |]. split.
  - rewrite Hrun, He; [reflexivity |].
    assert (Dedup.candidates tree dedup_onto_file =
            [["b"; "x.txt"]; ["c"; "y.txt"]; ["c"; "x.txt"]]) as ->
      by (vm_compute; reflexivity).
    repeat constructor; vm_compute; reflexivity.
  - split; [exact Hs |]. apply (Hsort bytes_A 1609545600 true); [| exact Hs].
    unfold Sortfile.choices. simpl. rewrite !elem_of_cons. auto.
Defined.

End OutputMore.
